(** * chromite/buildbot/validation_pool.py: the validation pool

    A shallow embedding of [ValidationPool] and of the properties of its
    life cycle: the tree gate with its retry loop, the two acquisition
    paths, the apply phase, the submit phase and the failure handlers.

    Python's effects are made explicit.  Every call that leaves the module
    (urllib, time, logging, the Gerrit helper, the methods of a change)
    appends an event to a chronological trace; what the outside world
    answers is read from an environment of oracles; exceptions are a result
    constructor. *)

From stdpp Require Import base option list strings gmap.
From Stdlib Require Import ZArith Lia.

Local Open Scope Z_scope.

(** ** Exceptions and the state-and-exception monad *)

(** The exception classes that the module raises, catches or lets through. *)
Inductive Exn :=
  | TreeIsClosedException
  | IOError
  | ValueError
  | KeyError
  | TypeError
  | ApplyPatchException
  | RunCommandError.

#[global] Instance Exn_eq_dec : EqDecision Exn.
Proof. solve_decision. Defined.

(** The message [TreeIsClosedException.__init__] hands to [Exception]. *)
Definition TreeIsClosedException_message : string :=
  "TREE IS CLOSED.  PLEASE SET TO OPEN OR THROTTLED TO COMMIT".

Inductive Res (A : Type) :=
  | Ret (a : A)
  | Raise (e : Exn).
Arguments Ret {A} a.
Arguments Raise {A} e.

(** A computation over a state [S]: it returns or raises, and in both
    cases leaves a state behind. *)
Definition M (S A : Type) : Type := S → Res A * S.

#[global] Instance M_ret {S} : MRet (M S) := λ A a s, (Ret a, s).

#[global] Instance M_bind {S} : MBind (M S) := λ A B f m s,
  match m s with
  | (Ret a, s') => f a s'
  | (Raise e, s') => (Raise e, s')
  end.

Definition raise {S A} (e : Exn) : M S A := λ s, (Raise e, s).

(** [try: body except handles: handler]; an exception that the clause does
    not name goes on to the caller. *)
Definition try_except {S A} (body : M S A) (handles : Exn → bool)
    (handler : M S A) : M S A := λ s,
  match body s with
  | (Ret a, s') => (Ret a, s')
  | (Raise e, s') => if handles e then handler s' else (Raise e, s')
  end.

Definition is_IOError (e : Exn) : bool := bool_decide (e = IOError).
Definition is_ApplyPatchException (e : Exn) : bool :=
  bool_decide (e = ApplyPatchException).
Definition is_RunCommandError (e : Exn) : bool :=
  bool_decide (e = RunCommandError).
Definition is_TreeIsClosedException (e : Exn) : bool :=
  bool_decide (e = TreeIsClosedException).

(** ** Data *)

(** A change of the review system, by its identity. *)
Record Change := mkChange {
  project : string;
  change_id : string;
  commit : string;
}.

#[global] Instance Change_eq_dec : EqDecision Change.
Proof. solve_decision. Defined.

(** [gerrit_helper.GerritHelper(internal)]. *)
Record GerritHelper := mkGerritHelper { internal : bool }.

#[global] Instance GerritHelper_eq_dec : EqDecision GerritHelper.
Proof. solve_decision. Defined.

(** The instance variables of a [ValidationPool]. *)
Record Pool := mkPool {
  changes : list Change;
  gerrit_helper : option GerritHelper;
  dryrun : bool;
}.

(** A value found in the decoded status dictionary: only strings can
    compare equal to ['open'] or ['throttled']. *)
Inductive JVal :=
  | JStr (s : string)
  | JNonStr.

#[global] Instance JVal_eq_dec : EqDecision JVal.
Proof. solve_decision. Defined.

(** What [json.load] returns: a dictionary, or a value that is none. *)
Inductive Json :=
  | JObj (d : gmap string JVal)
  | JNonObj.

(** What reading and decoding the body of a response does. *)
Inductive BodyOutcome :=
  | LoadRaises (e : Exn)
  | Loaded (j : Json).

(** What one [urllib.urlopen] does. *)
Inductive HttpOutcome :=
  | UrlopenRaises (e : Exn)
  | Response (code : Z) (body : BodyOutcome).

(** An element [<pending_commit>] of a manifest with its three attributes. *)
Record PendingCommit := mkPendingCommit {
  pc_project : string;
  pc_change_id : string;
  pc_commit : string;
}.

Inductive LogRecord :=
  | CouldNotGetStatus (url : string)
  | HadToAttempt (url : string) (attempt : Z)
  | NotAppliedCleanly
  | WillBeSubmitted (c : Change)
  | DidNotApplyCleanly (c : Change)
  | ValidationFailedAll
  | ValidationFailedFor (c : Change).

(** The calls that leave the module, in the order they happen. *)
Inductive Event :=
  | EvUrlopen (url : string)
  | EvSleep (seconds : Z)
  | EvWarn (r : LogRecord)
  | EvLogInfo (r : LogRecord)
  | EvLogDebug (r : LogRecord)
  | EvGerritHelper (internal : bool)
  | EvGrabChangesReadyForCommit (h : GerritHelper) (branch : string)
  | EvFilterProjectsNotInSourceTree (h : GerritHelper) (raw : list Change)
      (buildroot : string)
  | EvParseManifest (manifest : string)
  | EvGrabPatchFromGerrit (h : GerritHelper) (project change commit : string)
  | EvApply (c : Change) (directory : string) (trivial : bool)
  | EvPrintLink (c : Change)
  | EvSubmit (c : Change) (h : option GerritHelper) (dryrun : bool)
  | EvHandleCouldNotApply (c : Change) (h : option GerritHelper) (dryrun : bool)
  | EvHandleCouldNotSubmit (c : Change) (h : option GerritHelper)
      (dryrun : bool)
  | EvHandleCouldNotVerify (c : Change) (h : option GerritHelper)
      (dryrun : bool).

#[global] Instance LogRecord_eq_dec : EqDecision LogRecord.
Proof. solve_decision. Defined.

#[global] Instance Event_eq_dec : EqDecision Event.
Proof. solve_decision. Defined.

(** The answers of the outside world. *)
Record Env := mkEnv {
  (** what the n-th request of the run meets *)
  urlopen_result : nat → HttpOutcome;
  changes_ready : GerritHelper → string → list Change;
  projects_in_source_tree : GerritHelper → list Change → string → list Change;
  manifest_commits : string → list PendingCommit;
  patch_from_gerrit : GerritHelper → string → string → string → Change;
  (** does [change.Apply(directory, trivial=True)] raise ApplyPatchException *)
  apply_raises : Change → string → bool;
  (** does [change.Submit] raise RunCommandError *)
  submit_raises : Change → bool;
  (** the order in which the interpreter iterates over a set, given its
      elements *)
  set_iteration : list Change → list Change;
}.

(** The state outside a pool: the trace, the number of requests issued and
    the class attribute [ValidationPool.GLOBAL_DRYRUN]. *)
Record World := mkWorld {
  trace : list Event;
  requests : nat;
  GLOBAL_DRYRUN : bool;
}.

(** The assignments [pool.changes = cs] and [pool.gerrit_helper = h]. *)
Definition with_changes (pool : Pool) (cs : list Change) : Pool :=
  mkPool cs (gerrit_helper pool) (dryrun pool).

Definition with_gerrit_helper (pool : Pool) (h : GerritHelper) : Pool :=
  mkPool (changes pool) (Some h) (dryrun pool).

Definition emit (e : Event) : M World unit := λ w,
  (Ret (), mkWorld (trace w ++ [e]) (requests w) (GLOBAL_DRYRUN w)).

Definition read_GLOBAL_DRYRUN : M World bool := λ w, (Ret (GLOBAL_DRYRUN w), w).

(** An instance method runs over its [self] and the world. *)
Abbreviation Meth := (M (Pool * World)).

Definition in_world {A} (m : M World A) : Meth A := λ '(self, w),
  match m w with
  | (r, w') => (r, (self, w'))
  end.

Definition get_self : Meth Pool := λ '(self, w), (Ret self, (self, w)).

Definition set_changes (cs : list Change) : Meth unit := λ '(self, w),
  (Ret (), (with_changes self cs, w)).

(** ** Loops *)

(** [for x in xs: body] with a body that runs to its end every time. *)
Fixpoint for_each {S X} (xs : list X) (body : X → M S unit) : M S unit :=
  match xs with
  | [] => mret ()
  | x :: xs' => body x;; for_each xs' body
  end.

(** How the body of a [for] inside a function ends: at its end, or at a
    [return]. *)
Inductive Flow (R : Type) :=
  | Continue
  | Return (r : R).
Arguments Continue {R}.
Arguments Return {R} r.

(** [for x in xs: body] as the last statement of a function: [Some r] when
    the body returned [r], [None] when the loop ran out and the function
    ends without a [return], which gives Python's [None]. *)
Fixpoint for_in {S X R} (xs : list X) (body : X → M S (Flow R))
    : M S (option R) :=
  match xs with
  | [] => mret None
  | x :: xs' =>
      f ← body x;
      match f with
      | Continue => for_in xs' body
      | Return r => mret (Some r)
      end
  end.

(** ** The program *)

Section Program.

Context (env : Env).

(** *** Collaborators *)

Definition urlopen (url : string) : M World HttpOutcome := λ w,
  let w' := mkWorld (trace w ++ [EvUrlopen url]) (S (requests w))
              (GLOBAL_DRYRUN w) in
  match urlopen_result env (requests w) with
  | UrlopenRaises e => (Raise e, w')
  | Response code body => (Ret (Response code body), w')
  end.

Definition getcode (response : HttpOutcome) : Z :=
  match response with
  | Response code _ => code
  | UrlopenRaises _ => 0
  end.

Definition json_load (response : HttpOutcome) : M World Json :=
  match response with
  | Response _ (Loaded j) => mret j
  | Response _ (LoadRaises e) => raise e
  | UrlopenRaises e => raise e
  end.

(** [response_dict[key]]: KeyError on a dictionary without the key,
    TypeError on a value that is no dictionary. *)
Definition getitem (response_dict : Json) (key : string) : M World JVal :=
  match response_dict with
  | JObj d =>
      match d !! key with
      | Some v => mret v
      | None => raise KeyError
      end
  | JNonObj => raise TypeError
  end.

(** [v in ['open', 'throttled']]. *)
Definition in_open_throttled (v : JVal) : bool :=
  match v with
  | JStr s => bool_decide (s = "open") || bool_decide (s = "throttled")
  | JNonStr => false
  end.

Definition new_GerritHelper (internal : bool) : M World GerritHelper :=
  emit (EvGerritHelper internal);; mret (mkGerritHelper internal).

Definition GrabChangesReadyForCommit (h : GerritHelper) (branch : string)
    : M World (list Change) :=
  emit (EvGrabChangesReadyForCommit h branch);;
  mret (changes_ready env h branch).

Definition FilterProjectsNotInSourceTree (h : GerritHelper)
    (raw_changes : list Change) (buildroot : string) : M World (list Change) :=
  emit (EvFilterProjectsNotInSourceTree h raw_changes buildroot);;
  mret (projects_in_source_tree env h raw_changes buildroot).

Definition minidom_parse (manifest : string) : M World (list PendingCommit) :=
  emit (EvParseManifest manifest);; mret (manifest_commits env manifest).

Definition GrabPatchFromGerrit (h : GerritHelper) (project change commit : string)
    : M World Change :=
  emit (EvGrabPatchFromGerrit h project change commit);;
  mret (patch_from_gerrit env h project change commit).

(** [change.Apply(directory, trivial)]: whether it raises is read from the
    environment by the change and the directory, so that within one run of
    the apply phase a change listed twice meets the same outcome at both
    places. *)
Definition Change_Apply (c : Change) (directory : string) (trivial : bool)
    : M World unit :=
  emit (EvApply c directory trivial);;
  if apply_raises env c directory then raise ApplyPatchException else mret ().

Definition Change_Submit (c : Change) (h : option GerritHelper) (dryrun : bool)
    : M World unit :=
  emit (EvSubmit c h dryrun);;
  if submit_raises env c then raise RunCommandError else mret ().

(** [list(set(l) - set(k))]: the elements of [l] that are not in [k], each
    once, in the order of the interpreter's iteration over the set. *)
Definition list_of_set_difference (l k : list Change) : list Change :=
  set_iteration env (remove_dups (list_difference l k)).

(** *** ValidationPool.__init__ *)

Definition ValidationPool_init (dryrun : bool) : M World Pool :=
  global ← read_GLOBAL_DRYRUN;
  mret (mkPool [] None (dryrun || global)).

(** The call [ValidationPool(args)]: [__init__] has one parameter besides
    [self] and no default for it, so that any other number of arguments is a
    TypeError. *)
Definition ValidationPool_call (args : list bool) : M World Pool :=
  match args with
  | [dryrun] => ValidationPool_init dryrun
  | _ => raise TypeError
  end.

(** *** ValidationPool._IsTreeOpen *)

Definition status_url : string :=
  "https://chromiumos-status.appspot.com/current?format=json".

Definition max_attempts : nat := 5.

Definition _SleepWithExponentialBackOff (current_sleep : Z) : M World Z :=
  emit (EvSleep current_sleep);; mret (current_sleep * 2).

(** How one pass through the body of the [for] ends: at [break] with the
    decoded response, or at its end with the next sleep. *)
Inductive AttemptEnd :=
  | Break (response_dict : Json)
  | Next (current_sleep : Z).

Definition attempt_body (current_sleep : Z) : M World AttemptEnd :=
  try_except
    (response ← urlopen status_url;
     if bool_decide (getcode response = 200) then
       response_dict ← json_load response;
       mret (Break response_dict)
     else
       current_sleep' ← _SleepWithExponentialBackOff current_sleep;
       mret (Next current_sleep'))
    is_IOError
    (current_sleep' ← _SleepWithExponentialBackOff current_sleep;
     mret (Next current_sleep')).

(** [for attempt in range: ... else: ...]: [Some] at a [break], with the
    value of [attempt] there, [None] when the range is used up. *)
Fixpoint attempt_loop (range : list Z) (current_sleep : Z)
    : M World (option (Json * Z)) :=
  match range with
  | [] => mret None
  | attempt :: range' =>
      r ← attempt_body current_sleep;
      match r with
      | Break response_dict => mret (Some (response_dict, attempt))
      | Next current_sleep' => attempt_loop range' current_sleep'
      end
  end.

Definition py_range (n : nat) : list Z := Z.of_nat <$> seq 0 n.

Definition _IsTreeOpen : M World bool :=
  r ← attempt_loop (py_range max_attempts) 1;
  match r with
  | None =>
      emit (EvWarn (CouldNotGetStatus status_url));;
      mret true
  | Some (response_dict, attempt) =>
      (if bool_decide (attempt > 1)
       then emit (EvWarn (HadToAttempt status_url attempt))
       else mret ());;
      general_state ← getitem response_dict "general_state";
      mret (in_open_throttled general_state)
  end.

(** *** ValidationPool.AcquirePool *)

Definition AcquirePool (branch : string) (internal : bool) (buildroot : string)
    (dryrun : bool) : M World Pool :=
  tree_open ← _IsTreeOpen;
  if (tree_open : bool) then
    pool ← ValidationPool_call [dryrun];
    h ← new_GerritHelper internal;
    let pool := with_gerrit_helper pool h in
    raw_changes ← GrabChangesReadyForCommit h branch;
    filtered ← FilterProjectsNotInSourceTree h raw_changes buildroot;
    let pool := with_changes pool filtered in
    mret pool
  else
    raise TreeIsClosedException.

(** *** ValidationPool.AcquirePoolFromManifest *)

Fixpoint pending_commits_loop (pool : Pool) (h : GerritHelper)
    (pending_commits : list PendingCommit) : M World Pool :=
  match pending_commits with
  | [] => mret pool
  | pending_commit :: rest =>
      let project := pc_project pending_commit in
      let change := pc_change_id pending_commit in
      let commit := pc_commit pending_commit in
      patch ← GrabPatchFromGerrit h project change commit;
      pending_commits_loop (with_changes pool (changes pool ++ [patch])) h rest
  end.

Definition AcquirePoolFromManifest (manifest : string) (internal : bool)
    : M World Pool :=
  pool ← ValidationPool_call [];
  h ← new_GerritHelper internal;
  let pool := with_gerrit_helper pool h in
  pending_commits ← minidom_parse manifest;
  pending_commits_loop pool h pending_commits.

(** *** ValidationPool.HandleApplicationFailure *)

Definition HandleApplicationFailure (cs : list Change) : Meth unit :=
  for_each cs (λ change,
    in_world (emit (EvLogInfo (DidNotApplyCleanly change)));;
    self ← get_self;
    in_world (emit (EvHandleCouldNotApply change (gerrit_helper self)
                      (dryrun self)))).

(** *** ValidationPool.ApplyPoolIntoRepo *)

(** The loop over [self.changes], with the local list
    [non_applied_changes] threaded through. *)
Fixpoint apply_loop (directory : string) (cs non_applied_changes : list Change)
    : M World (list Change) :=
  match cs with
  | [] => mret non_applied_changes
  | change :: cs' =>
      applied ← try_except
                  (Change_Apply change directory true;; mret true)
                  is_ApplyPatchException
                  (mret false);
      if (applied : bool) then
        emit (EvPrintLink change);;
        apply_loop directory cs' non_applied_changes
      else
        apply_loop directory cs' (non_applied_changes ++ [change])
  end.

Definition ApplyPoolIntoRepo (directory : string) : Meth bool :=
  self ← get_self;
  non_applied_changes ← in_world (apply_loop directory (changes self) []);
  (if bool_decide (non_applied_changes ≠ []) then
     in_world (emit (EvLogDebug NotAppliedCleanly));;
     HandleApplicationFailure non_applied_changes;;
     self ← get_self;
     set_changes (list_of_set_difference (changes self) non_applied_changes)
   else mret ());;
  self ← get_self;
  mret (bool_decide (0 < length (changes self))%nat).

(** *** ValidationPool.SubmitPool *)

Definition SubmitPool : Meth (option bool) :=
  tree_open ← in_world _IsTreeOpen;
  if (tree_open : bool) then
    self ← get_self;
    for_in (changes self) (λ change,
      in_world (emit (EvLogInfo (WillBeSubmitted change)));;
      try_except
        (self ← get_self;
         in_world (Change_Submit change (gerrit_helper self) (dryrun self)))
        is_RunCommandError
        (self ← get_self;
         in_world (emit (EvHandleCouldNotSubmit change (gerrit_helper self)
                           (dryrun self))));;
      mret (Return true))
  else
    raise TreeIsClosedException.

(** *** ValidationPool.HandleValidationFailure *)

Definition HandleValidationFailure : Meth unit :=
  in_world (emit (EvLogInfo ValidationFailedAll));;
  self ← get_self;
  for_each (changes self) (λ change,
    in_world (emit (EvLogInfo (ValidationFailedFor change)));;
    self ← get_self;
    in_world (emit (EvHandleCouldNotVerify change (gerrit_helper self)
                      (dryrun self)))).

End Program.

(** ** Vocabulary of the properties *)

(** An attempt of the tree gate fails when the request raises IOError,
    when the response has another code than 200, or when reading the body
    of a 200 response raises IOError. *)
Definition attempt_fails (o : HttpOutcome) : bool :=
  match o with
  | UrlopenRaises e => is_IOError e
  | Response code body =>
      if bool_decide (code = 200) then
        match body with
        | LoadRaises e => is_IOError e
        | Loaded _ => false
        end
      else true
  end.

(** An attempt obtains a well-formed response when the code is 200 and the
    body decodes to a dictionary that has a [general_state]. *)
Definition well_formed_response (o : HttpOutcome) : bool :=
  match o with
  | Response code (Loaded (JObj d)) =>
      bool_decide (code = 200) && bool_decide (is_Some (d !! "general_state"))
  | _ => false
  end.

(** The first sleep interval, in seconds. *)
Definition first_sleep : Z := 1.

(** What the n-th failed attempt (from 1) leaves in the trace: the request
    and the sleep that follows it. *)
Definition failed_attempt (n : nat) : list Event :=
  [EvUrlopen status_url; EvSleep (first_sleep * 2 ^ (Z.of_nat n - 1))].

Definition failed_attempts (k : nat) : list Event :=
  concat (failed_attempt <$> seq 1 k).

(** The same trace, by recursion on the number of failed attempts, from a
    current sleep [s]. *)
Fixpoint backoff (s : Z) (k : nat) : list Event :=
  match k with
  | O => []
  | S k' => EvUrlopen status_url :: EvSleep s :: backoff (s * 2) k'
  end.

(** The world once [k] more requests were issued and [evs] was traced. *)
Definition advance (w : World) (evs : list Event) (k : nat) : World :=
  mkWorld (trace w ++ evs) (requests w + k) (GLOBAL_DRYRUN w).

(** The changes that a trace shows [Apply], [HandleCouldNotApply] and
    [Submit] called on, in the order of the calls. *)
Definition apply_attempts (evs : list Event) : list Change :=
  omap (λ e, match e with EvApply c _ _ => Some c | _ => None end) evs.

Definition could_not_apply_calls (evs : list Event) : list Change :=
  omap (λ e, match e with EvHandleCouldNotApply c _ _ => Some c | _ => None end)
    evs.

Definition submit_attempts (evs : list Event) : list Change :=
  omap (λ e, match e with EvSubmit c _ _ => Some c | _ => None end) evs.

Definition could_not_submit_calls (evs : list Event) : list Change :=
  omap (λ e, match e with EvHandleCouldNotSubmit c _ _ => Some c | _ => None end)
    evs.

(** How many could-not-apply notifications a change received. *)
Definition could_not_apply_count (c : Change) (evs : list Event) : nat :=
  length (filter (λ c', c' = c) (could_not_apply_calls evs)).

(** The sleeps and the number of requests that a trace shows. *)
Definition sleeps (evs : list Event) : list Z :=
  omap (λ e, match e with EvSleep d => Some d | _ => None end) evs.

Definition request_count (evs : list Event) : nat :=
  length (filter (λ e, e = EvUrlopen status_url) evs).

(** The calls to the change source: making the Gerrit helper, listing the
    ready changes, filtering them, fetching one patch. *)
Definition is_change_source_call (e : Event) : bool :=
  match e with
  | EvGerritHelper _
  | EvGrabChangesReadyForCommit _ _
  | EvFilterProjectsNotInSourceTree _ _ _
  | EvGrabPatchFromGerrit _ _ _ _ => true
  | _ => false
  end.

(** What the tree gate does to the outside: requests, sleeps, warnings. *)
Definition is_gate_event (e : Event) : bool :=
  match e with
  | EvUrlopen _ | EvSleep _ | EvWarn _ => true
  | _ => false
  end.

(** What the loop of [ApplyPoolIntoRepo] leaves in the trace: every change
    is applied, and the link of a change that applied is printed. *)
Definition apply_trace (env : Env) (directory : string) (cs : list Change)
    : list Event :=
  cs ≫= λ c,
    EvApply c directory true
    :: (if apply_raises env c directory then [] else [EvPrintLink c]).

(** What [HandleApplicationFailure] leaves in the trace. *)
Definition application_failure_trace (self : Pool) (cs : list Change)
    : list Event :=
  cs ≫= λ c,
    [EvLogInfo (DidNotApplyCleanly c);
     EvHandleCouldNotApply c (gerrit_helper self) (dryrun self)].

(** What the one pass through the loop of [SubmitPool] leaves in the
    trace. *)
Definition submit_trace (env : Env) (self : Pool) (c : Change) : list Event :=
  [EvLogInfo (WillBeSubmitted c);
   EvSubmit c (gerrit_helper self) (dryrun self)]
  ++ (if submit_raises env c
      then [EvHandleCouldNotSubmit c (gerrit_helper self) (dryrun self)]
      else []).

(** What Python promises of the iteration over a set: every element once,
    in some order. *)
Definition py_set_contract (iteration : list Change → list Change) : Prop :=
  ∀ l, iteration l ≡ₚ l.

(** The changes of a pool that apply, in the order of the pool. *)
Definition applying (env : Env) (directory : string) (cs : list Change)
    : list Change :=
  filter (λ c, apply_raises env c directory = false) cs.

(** The changes of a pool that do not apply, in the order of the pool. *)
Definition not_applying (env : Env) (directory : string) (cs : list Change)
    : list Change :=
  filter (λ c, apply_raises env c directory = true) cs.

(** Iteration over a hash table goes by slot, not by insertion: the
    elements in the order of their slots. *)
Fixpoint insert_by_slot (slot : Change → nat) (c : Change) (l : list Change)
    : list Change :=
  match l with
  | [] => [c]
  | d :: l' =>
      if bool_decide (slot c < slot d)%nat then c :: d :: l'
      else d :: insert_by_slot slot c l'
  end.

Definition iteration_by_slot (slot : Change → nat) (l : list Change)
    : list Change :=
  foldr (insert_by_slot slot) [] l.

(** The notifications that a trace shows, each with the helper and the
    dry-run flag it was given. *)
Definition could_not_apply_notifications (evs : list Event)
    : list (Change * option GerritHelper * bool) :=
  omap (λ e, match e with
             | EvHandleCouldNotApply c h d => Some (c, h, d)
             | _ => None
             end) evs.

Definition could_not_verify_notifications (evs : list Event)
    : list (Change * option GerritHelper * bool) :=
  omap (λ e, match e with
             | EvHandleCouldNotVerify c h d => Some (c, h, d)
             | _ => None
             end) evs.

(** The submits that a trace shows, each with the helper and the dry-run
    flag it was given. *)
Definition submit_calls (evs : list Event)
    : list (Change * option GerritHelper * bool) :=
  omap (λ e, match e with
             | EvSubmit c h d => Some (c, h, d)
             | _ => None
             end) evs.

(** What the loop of [HandleValidationFailure] leaves in the trace. *)
Definition validation_failure_trace (self : Pool) (cs : list Change)
    : list Event :=
  cs ≫= λ c,
    [EvLogInfo (ValidationFailedFor c);
     EvHandleCouldNotVerify c (gerrit_helper self) (dryrun self)].



(** The calls that the apply phase makes: applying, printing a link,
    logging, notifying that a change could not be applied. *)
Definition is_apply_phase_event (e : Event) : bool :=
  match e with
  | EvApply _ _ _ | EvPrintLink _ | EvLogDebug _ | EvLogInfo _
  | EvHandleCouldNotApply _ _ _ => true
  | _ => false
  end.

(** The warning that follows an answer obtained after [k] failed attempts:
    [attempt] is [k] there, and the warning is for [attempt > 1]. *)
Definition attempts_warning (k : nat) : list Event :=
  if bool_decide (2 ≤ k)%nat
  then [EvWarn (HadToAttempt status_url (Z.of_nat k))]
  else [].

(** ** Concrete pools and environments *)

Module Examples.

Definition change_a : Change := mkChange "chromiumos/chromite" "I1001" "a1c3".
Definition change_b : Change := mkChange "chromiumos/chromite" "I1002" "b2d4".
Definition change_c : Change := mkChange "chromiumos/overlays" "I1003" "c3e5".

Definition status (state : string) : HttpOutcome :=
  Response 200 (Loaded (JObj {[ "general_state" := JStr state ]})).

(** The hash slots of the three changes: [change_c] before [change_a]. *)
Definition slot_of (c : Change) : nat :=
  if bool_decide (c = change_c) then 1%nat
  else if bool_decide (c = change_a) then 2%nat
  else 3%nat.

(** An environment in which [change_b] does not apply, no submit fails, and
    the status page answers as [net] says. *)
Definition env_of (net : nat → HttpOutcome) : Env :=
  mkEnv net
    (λ _ _, [change_a; change_b; change_c])
    (λ _ raw _, raw)
    (λ _, [mkPendingCommit "chromiumos/chromite" "I1001" "a1c3"])
    (λ _ p c k, mkChange p c k)
    (λ c _, bool_decide (c = change_b))
    (λ _, false)
    (iteration_by_slot slot_of).

Definition tree_open_env : Env := env_of (λ _, status "open").
Definition tree_closed_env : Env := env_of (λ _, status "closed").
Definition unreachable_env : Env := env_of (λ _, UrlopenRaises IOError).

(** Four requests do not get through; the fifth meets a 200 response
    whose body is no JSON document. *)
Definition undecodable_env : Env :=
  env_of (λ n, if bool_decide (n < 4)%nat then UrlopenRaises IOError
               else Response 200 (LoadRaises ValueError)).

(** The status page says open to the first request and closed from then
    on. *)
Definition closing_env : Env :=
  env_of (λ n, match n with O => status "open" | _ => status "closed" end).

(** An environment with the three oracles that the phases consult. *)
Definition env_with (net : nat → HttpOutcome) (apply_raises : Change → bool)
    (submit_raises : Change → bool) : Env :=
  mkEnv net
    (λ _ _, [change_a; change_b; change_c])
    (λ _ raw _, raw)
    (λ _, [mkPendingCommit "chromiumos/chromite" "I1001" "a1c3";
           mkPendingCommit "chromiumos/overlays" "I1003" "c3e5"])
    (λ _ p c k, mkChange p c k)
    (λ c _, apply_raises c)
    submit_raises
    (iteration_by_slot slot_of).

(** The status page fails [k] times and then answers with [o]. *)
Definition after_failures (k : nat) (o : HttpOutcome) (n : nat) : HttpOutcome :=
  if bool_decide (n < k)%nat then Response 503 (LoadRaises ValueError) else o.

Definition fresh_world : World := mkWorld [] 0 false.

Definition pool_of (cs : list Change) : Pool := mkPool cs None false.

End Examples.

(** ** The monad, step by step *)

Lemma bind_Ret {S A B} (m : M S A) (f : A → M S B) s a s' :
  m s = (Ret a, s') → (m ≫= f) s = f a s'.
Proof. intros E. unfold mbind, M_bind. by rewrite E. Qed.

Lemma bind_Raise {S A B} (m : M S A) (f : A → M S B) s e s' :
  m s = (Raise e, s') → (m ≫= f) s = (Raise e, s').
Proof. intros E. unfold mbind, M_bind. by rewrite E. Qed.

Lemma advance_0 w : advance w [] 0 = w.
Proof.
  destruct w as [t n g]. unfold advance. simpl.
  by rewrite app_nil_r, Nat.add_0_r.
Qed.

Lemma advance_advance w evs k evs' k' :
  advance (advance w evs k) evs' k' = advance w (evs ++ evs') (k + k').
Proof.
  unfold advance. simpl. by rewrite <- app_assoc, Nat.add_assoc.
Qed.

Lemma emit_advance e w : emit e w = (Ret (), advance w [e] 0).
Proof. unfold emit, advance. by rewrite Nat.add_0_r. Qed.

(** ** The tree gate *)

Section Gate.

Context (env : Env).

Lemma backoff_failed_attempts k m :
  backoff (first_sleep * 2 ^ Z.of_nat m) k
  = concat (failed_attempt <$> seq (S m) k).
Proof.
  revert m. induction k as [|k IH]; intros m; [done|].
  cbn [backoff seq fmap list_fmap concat].
  rewrite <- (IH (S m)). unfold failed_attempt.
  replace (Z.of_nat (S m) - 1) with (Z.of_nat m) by lia.
  replace (first_sleep * 2 ^ Z.of_nat m * 2)
    with (first_sleep * 2 ^ Z.of_nat (S m)); [done|].
  rewrite Nat2Z.inj_succ, Z.pow_succ_r by lia. lia.
Qed.

Lemma backoff_from_first k : backoff first_sleep k = failed_attempts k.
Proof.
  unfold failed_attempts. rewrite <- backoff_failed_attempts.
  f_equal.
Qed.

Ltac run_monad :=
  unfold attempt_body, try_except, urlopen, json_load,
    _SleepWithExponentialBackOff, emit, raise, advance,
    mbind, M_bind, mret, M_ret; simpl.

Lemma attempt_body_fails s w :
  attempt_fails (urlopen_result env (requests w)) = true →
  attempt_body env s w
  = (Ret (Next (s * 2)), advance w [EvUrlopen status_url; EvSleep s] 1).
Proof.
  intros Hf. run_monad.
  destruct (urlopen_result env (requests w)) as [e|code body]; simpl in *.
  - rewrite Hf. simpl. by rewrite <- app_assoc, Nat.add_1_r.
  - destruct (bool_decide (code = 200)); simpl.
    + destruct body as [e|j]; [|done]. rewrite Hf. simpl.
      by rewrite <- app_assoc, Nat.add_1_r.
    + by rewrite <- app_assoc, Nat.add_1_r.
Qed.

Lemma attempt_body_loaded s w j :
  urlopen_result env (requests w) = Response 200 (Loaded j) →
  attempt_body env s w = (Ret (Break j), advance w [EvUrlopen status_url] 1).
Proof. intros Ho. run_monad. rewrite Ho. simpl. by rewrite Nat.add_1_r. Qed.

(** An attempt that does not fail ends the loop: by [break], or by an
    exception that the [except] clause does not name. *)
Lemma attempt_body_resolves s w :
  attempt_fails (urlopen_result env (requests w)) = false →
  ∃ r, attempt_body env s w = (r, advance w [EvUrlopen status_url] 1)
       ∧ ∀ s', r ≠ Ret (Next s').
Proof.
  intros Hf. run_monad. rewrite Nat.add_1_r.
  destruct (urlopen_result env (requests w)) as [e|code body]; simpl in *.
  - rewrite Hf. eauto.
  - destruct (bool_decide (code = 200)); [|done]. simpl.
    destruct body as [e|j].
    + rewrite Hf. eauto.
    + eexists. split; [reflexivity|]. intros s'. discriminate.
Qed.

(** After [k] failed attempts the loop is where it started, [k] places
    further in its range, with the sleep doubled [k] times. *)
Lemma attempt_loop_skip k : ∀ range s w,
  (k ≤ length range)%nat →
  (∀ i, (i < k)%nat →
        attempt_fails (urlopen_result env (requests w + i)) = true) →
  attempt_loop env range s w
  = attempt_loop env (drop k range) (s * 2 ^ Z.of_nat k)
      (advance w (backoff s k) k).
Proof.
  induction k as [|k IH]; intros range s w Hlen Hfail.
  - rewrite drop_0, advance_0. f_equal. simpl. lia.
  - destruct range as [|attempt range]; [simpl in Hlen; lia|].
    cbn [attempt_loop drop].
    erewrite bind_Ret; last first.
    { apply attempt_body_fails. rewrite <- (Nat.add_0_r (requests w)).
      apply Hfail. lia. }
    replace (s * 2 ^ Z.of_nat (S k)) with (s * 2 * 2 ^ Z.of_nat k)
      by (rewrite Nat2Z.inj_succ, Z.pow_succ_r by lia; lia).
    rewrite IH.
    + by rewrite advance_advance.
    + simpl in Hlen. lia.
    + intros i Hi. simpl.
      replace (requests w + 1 + i)%nat with (requests w + S i)%nat by lia.
      apply Hfail. lia.
Qed.

(** The loop, whatever the network does: [k] failed attempts, each with
    its sleep, then at most one attempt that ends the loop. *)
Lemma attempt_loop_trace range : ∀ s w,
  ∃ r k final,
    attempt_loop env range s w
    = (r, advance w (backoff s k ++ replicate final (EvUrlopen status_url))
            (k + final))
    ∧ (k + final ≤ length range)%nat ∧ (final ≤ 1)%nat.
Proof.
  induction range as [|attempt range IH]; intros s w.
  - exists (Ret None), 0%nat, 0%nat. simpl.
    rewrite advance_0. split; [done|lia].
  - cbn [attempt_loop].
    destruct (attempt_fails (urlopen_result env (requests w))) eqn:Hf.
    + erewrite bind_Ret by by apply attempt_body_fails.
      destruct (IH (s * 2) (advance w [EvUrlopen status_url; EvSleep s] 1))
        as (r & k & final & E & Hk & Hfinal).
      exists r, (S k), final. rewrite E, advance_advance.
      split; [|simpl; lia].
      do 2 f_equal.
    + destruct (attempt_body_resolves s w Hf) as (r & E & Hr).
      exists (match r with
              | Ret (Break response_dict) => Ret (Some (response_dict, attempt))
              | Ret (Next _) => Ret None
              | Raise e => Raise e
              end), 0%nat, 1%nat.
      split; [|simpl; lia].
      destruct r as [[j|s']|e].
      * by erewrite bind_Ret by exact E.
      * by destruct (Hr s').
      * by erewrite bind_Raise by exact E.
Qed.

Lemma drop_py_range k n :
  (k < n)%nat →
  drop k (py_range n) = Z.of_nat k :: drop (S k) (py_range n).
Proof.
  intros Hk. unfold py_range.
  rewrite <- !fmap_drop, !drop_seq. simpl.
  destruct (n - k)%nat as [|m] eqn:E; [lia|].
  by replace (n - S k)%nat with m by lia.
Qed.

Lemma sleeps_failed_attempts k :
  sleeps (failed_attempts k)
  = (λ n, first_sleep * 2 ^ (Z.of_nat n - 1)) <$> seq 1 k.
Proof.
  unfold failed_attempts. generalize 1%nat.
  induction k as [|k IH]; intros n; [done|].
  cbn [seq fmap list_fmap concat]. unfold sleeps in *.
  rewrite omap_app, IH. done.
Qed.

Lemma request_count_failed_attempts k :
  request_count (failed_attempts k) = k.
Proof.
  unfold failed_attempts. generalize 1%nat.
  induction k as [|k IH]; intros n; [done|].
  cbn [seq fmap list_fmap concat]. unfold request_count in *.
  rewrite filter_app, length_app, IH. done.
Qed.

Lemma sleeps_requests final : sleeps (replicate final (EvUrlopen status_url)) = [].
Proof. induction final; [done|]. simpl. done. Qed.

Lemma request_count_requests final :
  request_count (replicate final (EvUrlopen status_url)) = final.
Proof.
  unfold request_count. induction final as [|n IH]; [done|].
  cbn [replicate]. rewrite filter_cons_True by done.
  cbn [length]. by rewrite IH.
Qed.

(** The tree gate, whatever the network does: [k] failed attempts, at most one
    attempt that resolves, at most one warning. *)
Lemma IsTreeOpen_trace w :
  ∃ r k final warnings,
    _IsTreeOpen env w
    = (r, advance w (failed_attempts k
                       ++ replicate final (EvUrlopen status_url) ++ warnings)
            (k + final))
    ∧ (k + final ≤ 5)%nat ∧ (final ≤ 1)%nat
    ∧ (warnings = [] ∨ ∃ record, warnings = [EvWarn record]).
Proof.
  unfold _IsTreeOpen.
  destruct (attempt_loop_trace (py_range max_attempts) 1 w)
    as (r0 & k & final & E & Hk & Hfinal).
  change (length (py_range max_attempts)) with 5%nat in Hk.
  change 1 with first_sleep in E. rewrite backoff_from_first in E.
  set (evs := failed_attempts k ++ replicate final (EvUrlopen status_url)) in *.
  assert (Hw : ∀ ws, advance (advance w evs (k + final)) ws 0
                     = advance w (failed_attempts k
                         ++ replicate final (EvUrlopen status_url) ++ ws)
                         (k + final)).
  { intros ws. rewrite advance_advance, Nat.add_0_r. unfold evs.
    by rewrite <- app_assoc. }
  destruct r0 as [[[response_dict attempt]|]|e].
  - rewrite (bind_Ret _ _ _ _ _ E).
    assert (∃ ws, ((if bool_decide (attempt > 1)
                    then emit (EvWarn (HadToAttempt status_url attempt))
                    else mret ()) : M World ()) (advance w evs (k + final))
                  = (Ret (), advance (advance w evs (k + final)) ws 0)
                  ∧ (ws = [] ∨ ∃ record, ws = [EvWarn record]))
      as (ws & Ews & Hws).
    { destruct (bool_decide (attempt > 1)).
      - eexists. split; [apply emit_advance|]. right. eauto.
      - exists []. split; [by rewrite advance_0|]. by left. }
    rewrite (bind_Ret _ _ _ _ _ Ews), Hw.
    destruct response_dict as [d|]; unfold getitem.
    + destruct (d !! "general_state") as [v|].
      * by exists (Ret (in_open_throttled v)), k, final, ws.
      * by exists (Raise KeyError), k, final, ws.
    + by exists (Raise TypeError), k, final, ws.
  - rewrite (bind_Ret _ _ _ _ _ E).
    erewrite bind_Ret by apply emit_advance. rewrite Hw.
    exists (Ret true), k, final, [EvWarn (CouldNotGetStatus status_url)].
    repeat split; eauto.
  - rewrite (bind_Raise _ _ _ _ _ E).
    exists (Raise e), k, final, []. rewrite <- (Hw []), advance_0.
    repeat split; eauto.
Qed.

Lemma in_open_throttled_true v :
  in_open_throttled v = true ↔ v = JStr "open" ∨ v = JStr "throttled".
Proof.
  destruct v as [s|]; simpl.
  - rewrite orb_true_iff, !bool_decide_eq_true.
    split; (intros [E|E]; [left|right]); congruence.
  - split; [done|]. by intros [|].
Qed.

Lemma in_open_throttled_false v :
  in_open_throttled v = false ↔ v ≠ JStr "open" ∧ v ≠ JStr "throttled".
Proof. rewrite <- not_true_iff_false, in_open_throttled_true. tauto. Qed.

(** The loop after [k] failed attempts and a well-formed answer. *)
Lemma attempt_loop_answer k w j :
  (k < 5)%nat →
  (∀ i, (i < k)%nat →
        attempt_fails (urlopen_result env (requests w + i)) = true) →
  urlopen_result env (requests w + k) = Response 200 (Loaded j) →
  attempt_loop env (py_range max_attempts) 1 w
  = (Ret (Some (j, Z.of_nat k)),
     advance w (backoff 1 k ++ [EvUrlopen status_url]) (k + 1)).
Proof.
  intros Hk Hfail Hanswer.
  rewrite (attempt_loop_skip k) by (done || (simpl; lia)).
  rewrite drop_py_range by done. cbn [attempt_loop].
  erewrite bind_Ret by by apply attempt_body_loaded.
  by rewrite advance_advance.
Qed.

(** The loop after five failed attempts. *)
Lemma attempt_loop_exhausted w :
  (∀ i, (i < 5)%nat →
        attempt_fails (urlopen_result env (requests w + i)) = true) →
  attempt_loop env (py_range max_attempts) 1 w
  = (Ret None, advance w (backoff 1 5) 5).
Proof.
  intros Hfail. by rewrite (attempt_loop_skip 5) by (done || (simpl; lia)).
Qed.

(** C3, as amended.  After [k] attempts that failed by an IOError or by a
    code other than 200: when [k] is 5, all attempts are used up and the
    gate answers open, with the warning in the trace, raising nothing; when
    the next attempt, one of the five, meets a 200 response that decodes to
    a dictionary with a [general_state], the tree gate answers open exactly when
    that state is ['open'] or ['throttled'], and closed for any other
    value. *)
Theorem IsTreeOpen_verdict w k :
  (k ≤ 5)%nat →
  (∀ i, (i < k)%nat →
        attempt_fails (urlopen_result env (requests w + i)) = true) →
  (k = 5%nat →
     ∃ w', _IsTreeOpen env w = (Ret true, w')
           ∧ EvWarn (CouldNotGetStatus status_url) ∈ trace w')
  ∧ (∀ d general_state,
       (k < 5)%nat →
       urlopen_result env (requests w + k) = Response 200 (Loaded (JObj d)) →
       d !! "general_state" = Some general_state →
       ∃ tree_open w',
         _IsTreeOpen env w = (Ret tree_open, w')
         ∧ (tree_open = true
            ↔ general_state = JStr "open" ∨ general_state = JStr "throttled")
         ∧ (tree_open = false
            ↔ general_state ≠ JStr "open" ∧ general_state ≠ JStr "throttled")).
Proof.
  intros Hk Hfail. split.
  - intros ->. unfold _IsTreeOpen.
    erewrite bind_Ret by by apply attempt_loop_exhausted.
    cbv beta iota.
    erewrite bind_Ret by apply emit_advance.
    eexists. split; [reflexivity|].
    simpl. set_solver.
  - intros d v Hlt Hanswer Hstate. unfold _IsTreeOpen.
    erewrite bind_Ret by by apply attempt_loop_answer.
    cbv beta iota.
    exists (in_open_throttled v).
    assert (Hverdict : ∀ w0, getitem (JObj d) "general_state" w0 = (Ret v, w0)).
    { intros w0. unfold getitem. by rewrite Hstate. }
    destruct (bool_decide (Z.of_nat k > 1)).
    + erewrite bind_Ret by apply emit_advance.
      erewrite bind_Ret by apply Hverdict.
      eexists. split; [reflexivity|].
      split; [apply in_open_throttled_true|apply in_open_throttled_false].
    + erewrite bind_Ret by reflexivity.
      erewrite bind_Ret by apply Hverdict.
      eexists. split; [reflexivity|].
      split; [apply in_open_throttled_true|apply in_open_throttled_false].
Qed.

End Gate.

(** ** The pool *)

Section PoolProperties.

Context (env : Env).

Lemma in_world_run {A} (m : M World A) self w r w' :
  m w = (r, w') → in_world m (self, w) = (r, (self, w')).
Proof. intros E. unfold in_world. by rewrite E. Qed.

Lemma ValidationPool_call_one dryrun w :
  ValidationPool_call [dryrun] w
  = (Ret (mkPool [] None (dryrun || GLOBAL_DRYRUN w)), w).
Proof. reflexivity. Qed.

(** The tree gate traces nothing but requests, sleeps and warnings, and leaves
    the class attribute alone. *)
Lemma IsTreeOpen_gate_events w r w' :
  _IsTreeOpen env w = (r, w') →
  ∃ evs, trace w' = trace w ++ evs
         ∧ Forall (λ e, is_gate_event e = true) evs
         ∧ GLOBAL_DRYRUN w' = GLOBAL_DRYRUN w.
Proof.
  intros E.
  destruct (IsTreeOpen_trace env w) as (r0 & k & final & ws & E0 & _ & _ & Hws).
  rewrite E in E0. injection E0 as -> ->.
  eexists. split; [reflexivity|]. split; [|done].
  rewrite !Forall_app. split_and!.
  - apply Forall_concat, Forall_fmap, Forall_forall. intros n _.
    by repeat constructor.
  - by apply Forall_replicate.
  - destruct Hws as [->|[record ->]]; by repeat constructor.
Qed.

Lemma gate_event_no_change_source e :
  is_gate_event e = true → is_change_source_call e = false.
Proof. by destruct e. Qed.

Lemma gate_events_no_submit evs :
  Forall (λ e, is_gate_event e = true) evs →
  submit_attempts evs = [] ∧ could_not_submit_calls evs = [].
Proof.
  unfold submit_attempts, could_not_submit_calls.
  induction 1 as [|e evs He _ [IH1 IH2]]; [done|].
  destruct e; try discriminate; simpl; by rewrite ?IH1, ?IH2.
Qed.

(** C8.  A pool constructed with the flag [d] has [d] or the process-wide
    flag for its dry-run value; when the process-wide flag is set, the pool
    is in dry-run whatever [d] is.  The same holds of the pool that
    [AcquirePool] returns. *)
Theorem ValidationPool_effective_dryrun d w :
  (∃ pool, ValidationPool_call [d] w = (Ret pool, w)
           ∧ dryrun pool = d || GLOBAL_DRYRUN w
           ∧ (GLOBAL_DRYRUN w = true → dryrun pool = true))
  ∧ (∀ branch internal buildroot pool w',
       AcquirePool env branch internal buildroot d w = (Ret pool, w') →
       dryrun pool = d || GLOBAL_DRYRUN w
       ∧ (GLOBAL_DRYRUN w = true → dryrun pool = true)).
Proof.
  split.
  - eexists. split; [apply ValidationPool_call_one|]. simpl.
    split; [done|]. intros ->. apply orb_true_r.
  - intros branch internal buildroot pool w' E.
    unfold AcquirePool in E.
    destruct (_IsTreeOpen env w) as [r w1] eqn:Egate.
    destruct (IsTreeOpen_gate_events _ _ _ Egate) as (evs & _ & _ & Hglobal).
    destruct r as [[|]|e].
    + rewrite (bind_Ret _ _ _ _ _ Egate) in E. cbv beta iota in E.
      erewrite bind_Ret in E by apply ValidationPool_call_one.
      injection E as <- _. simpl. rewrite Hglobal.
      split; [done|]. intros ->. apply orb_true_r.
    + by rewrite (bind_Ret _ _ _ _ _ Egate) in E.
    + by rewrite (bind_Raise _ _ _ _ _ Egate) in E.
Qed.

(** C4.  [AcquirePoolFromManifest] calls the constructor without its
    argument and so raises TypeError for every manifest, before it makes
    the Gerrit helper, reads the manifest or fetches a patch. *)
Theorem AcquirePoolFromManifest_raises manifest internal w :
  AcquirePoolFromManifest env manifest internal w = (Raise TypeError, w).
Proof. reflexivity. Qed.

(** C5.  With the tree gate reporting closed, [AcquirePool] raises
    TreeIsClosedException and leaves the world as the tree gate left it: no pool
    is made and no call to the change source is in the trace.  A clause
    [except TreeIsClosedException] takes this exception and no other. *)
Theorem AcquirePool_tree_closed branch internal buildroot dryrun w w' :
  _IsTreeOpen env w = (Ret false, w') →
  AcquirePool env branch internal buildroot dryrun w
  = (Raise TreeIsClosedException, w')
  ∧ (∃ evs, trace w' = trace w ++ evs
            ∧ Forall (λ e, is_change_source_call e = false) evs)
  ∧ (∀ e, is_TreeIsClosedException e = true ↔ e = TreeIsClosedException).
Proof.
  intros Egate. split_and!.
  - unfold AcquirePool. by rewrite (bind_Ret _ _ _ _ _ Egate).
  - destruct (IsTreeOpen_gate_events _ _ _ Egate) as (evs & Htrace & Hevs & _).
    exists evs. split; [done|].
    eapply Forall_impl; [exact Hevs|]. apply gate_event_no_change_source.
  - intros e. unfold is_TreeIsClosedException. apply bool_decide_eq_true.
Qed.

(** C6.  With the tree gate reporting closed when [SubmitPool] is called,
    [SubmitPool] raises TreeIsClosedException, the pool is as it was, and
    the trace has no submit and no could-not-submit call. *)
Theorem SubmitPool_tree_closed self w w' :
  _IsTreeOpen env w = (Ret false, w') →
  SubmitPool env (self, w) = (Raise TreeIsClosedException, (self, w'))
  ∧ (∃ evs, trace w' = trace w ++ evs
            ∧ submit_attempts evs = []
            ∧ could_not_submit_calls evs = []).
Proof.
  intros Egate. split.
  - unfold SubmitPool.
    by erewrite bind_Ret by (apply in_world_run, Egate).
  - destruct (IsTreeOpen_gate_events _ _ _ Egate) as (evs & Htrace & Hevs & _).
    exists evs. split; [done|]. by apply gate_events_no_submit.
Qed.

(** C9.  With the tree gate reporting open and no change in the pool,
    [SubmitPool] runs off the end of its loop and returns None. *)
Theorem SubmitPool_empty_pool self w w' :
  _IsTreeOpen env w = (Ret true, w') →
  changes self = [] →
  SubmitPool env (self, w) = (Ret None, (self, w')).
Proof.
  intros Egate Hempty. unfold SubmitPool.
  erewrite bind_Ret by (apply in_world_run, Egate).
  cbv beta iota. erewrite bind_Ret by reflexivity.
  by rewrite Hempty.
Qed.

(** With the tree gate reporting open and a change in the pool, [SubmitPool]
    returns True from the first pass through its loop. *)
Lemma SubmitPool_first_change self w w' c rest :
  _IsTreeOpen env w = (Ret true, w') →
  changes self = c :: rest →
  SubmitPool env (self, w)
  = (Ret (Some true), (self, advance w' (submit_trace env self c) 0)).
Proof.
  intros Egate Hchanges. unfold SubmitPool.
  erewrite bind_Ret by (apply in_world_run, Egate).
  cbv beta iota. erewrite bind_Ret by reflexivity.
  rewrite Hchanges. unfold submit_trace, advance.
  unfold for_in, try_except, in_world, get_self, Change_Submit, emit, raise,
    mbind, M_bind, mret, M_ret. simpl.
  destruct (submit_raises env c); simpl;
    by rewrite <- ?app_assoc, ?Nat.add_0_r.
Qed.

End PoolProperties.

(** ** The apply phase *)

Section ApplyPhase.

Context (env : Env) (directory : string).

Lemma try_Apply c w :
  try_except (Change_Apply env c directory true;; mret true)
    is_ApplyPatchException (mret false) w
  = (Ret (negb (apply_raises env c directory)),
     advance w [EvApply c directory true] 0).
Proof.
  unfold try_except, Change_Apply, emit, advance, raise,
    mbind, M_bind, mret, M_ret. simpl.
  destruct (apply_raises env c directory); simpl; by rewrite Nat.add_0_r.
Qed.

Lemma apply_loop_run cs : ∀ non_applied_changes w,
  apply_loop env directory cs non_applied_changes w
  = (Ret (non_applied_changes ++ not_applying env directory cs),
     advance w (apply_trace env directory cs) 0).
Proof.
  induction cs as [|c cs IH]; intros acc w.
  - simpl. by rewrite app_nil_r, advance_0.
  - cbn [apply_loop]. unfold not_applying, apply_trace in *.
    cbn [mbind list_bind].
    erewrite bind_Ret by apply try_Apply.
    destruct (apply_raises env c directory) eqn:Hc; cbn [negb].
    + rewrite IH, advance_advance.
      rewrite filter_cons_True by done.
      by rewrite <- app_assoc.
    + erewrite bind_Ret by apply emit_advance.
      rewrite IH, !advance_advance.
      by rewrite filter_cons_False by (by rewrite Hc).
Qed.

Lemma HandleApplicationFailure_run cs : ∀ self w,
  HandleApplicationFailure cs (self, w)
  = (Ret (), (self, advance w (application_failure_trace self cs) 0)).
Proof.
  unfold HandleApplicationFailure, application_failure_trace.
  induction cs as [|c cs IH]; intros self w.
  - simpl. by rewrite advance_0.
  - cbn [for_each mbind list_bind].
    erewrite bind_Ret; last first.
    { erewrite bind_Ret by (apply in_world_run, emit_advance).
      cbv beta. erewrite bind_Ret by reflexivity.
      apply in_world_run, emit_advance. }
    by rewrite IH, !advance_advance.
Qed.

(** The whole method when every change applies: the pool is left as it
    is. *)
Lemma ApplyPoolIntoRepo_all_applied self w :
  not_applying env directory (changes self) = [] →
  ApplyPoolIntoRepo env directory (self, w)
  = (Ret (bool_decide (0 < length (changes self))%nat),
     (self, advance w (apply_trace env directory (changes self)) 0)).
Proof.
  intros Hnone. unfold ApplyPoolIntoRepo.
  erewrite bind_Ret by reflexivity.
  erewrite bind_Ret by (apply in_world_run, apply_loop_run).
  rewrite Hnone. simpl.
  erewrite bind_Ret by reflexivity.
  by erewrite bind_Ret by reflexivity.
Qed.

(** The whole method when some change does not apply. *)
Lemma ApplyPoolIntoRepo_some_failed self w :
  not_applying env directory (changes self) ≠ [] →
  let failed := not_applying env directory (changes self) in
  let survivors := list_of_set_difference env (changes self) failed in
  ApplyPoolIntoRepo env directory (self, w)
  = (Ret (bool_decide (0 < length survivors)%nat),
     (with_changes self survivors,
      advance w (apply_trace env directory (changes self)
                 ++ [EvLogDebug NotAppliedCleanly]
                 ++ application_failure_trace self failed) 0)).
Proof.
  intros Hsome failed survivors. unfold ApplyPoolIntoRepo.
  erewrite bind_Ret by reflexivity.
  erewrite bind_Ret by (apply in_world_run, apply_loop_run).
  simpl app. fold failed.
  rewrite bool_decide_eq_true_2 by done.
  erewrite bind_Ret; last first.
  { erewrite bind_Ret by (apply in_world_run, emit_advance).
    erewrite bind_Ret by apply HandleApplicationFailure_run.
    erewrite bind_Ret by reflexivity.
    reflexivity. }
  erewrite bind_Ret by reflexivity.
  by rewrite !advance_advance.
Qed.

Lemma apply_attempts_apply_trace cs :
  apply_attempts (apply_trace env directory cs) = cs.
Proof.
  unfold apply_attempts, apply_trace.
  induction cs as [|c cs IH]; [done|].
  cbn [mbind list_bind]. rewrite omap_app, IH.
  by destruct (apply_raises env c directory).
Qed.

Lemma could_not_apply_calls_apply_trace cs :
  could_not_apply_calls (apply_trace env directory cs) = [].
Proof.
  unfold could_not_apply_calls, apply_trace.
  induction cs as [|c cs IH]; [done|].
  cbn [mbind list_bind]. rewrite omap_app, IH.
  by destruct (apply_raises env c directory).
Qed.

Lemma apply_attempts_failure_trace self cs :
  apply_attempts (application_failure_trace self cs) = [].
Proof.
  unfold apply_attempts, application_failure_trace.
  induction cs as [|c cs IH]; [done|].
  cbn [mbind list_bind]. by rewrite omap_app, IH.
Qed.

Lemma could_not_apply_calls_failure_trace self cs :
  could_not_apply_calls (application_failure_trace self cs) = cs.
Proof.
  unfold could_not_apply_calls, application_failure_trace.
  induction cs as [|c cs IH]; [done|].
  cbn [mbind list_bind]. by rewrite omap_app, IH.
Qed.

Lemma elem_of_not_applying c cs :
  c ∈ not_applying env directory cs
  ↔ c ∈ cs ∧ apply_raises env c directory = true.
Proof. unfold not_applying. rewrite list_elem_of_filter. tauto. Qed.

Lemma elem_of_applying c cs :
  c ∈ applying env directory cs
  ↔ c ∈ cs ∧ c ∉ not_applying env directory cs.
Proof.
  unfold applying. rewrite list_elem_of_filter, elem_of_not_applying.
  destruct (apply_raises env c directory); intuition congruence.
Qed.

Lemma applying_all cs :
  not_applying env directory cs = [] → applying env directory cs = cs.
Proof.
  unfold not_applying, applying.
  induction cs as [|c cs IH]; [done|].
  destruct (apply_raises env c directory) eqn:Hc.
  - by rewrite filter_cons_True by done.
  - rewrite filter_cons_False by (by rewrite Hc).
    rewrite filter_cons_True by done. intros Hcs. by rewrite IH.
Qed.

(** The survivors under a set iteration that keeps Python's promise. *)
Lemma list_of_set_difference_elem_of cs failed c :
  py_set_contract (set_iteration env) →
  c ∈ list_of_set_difference env cs failed ↔ c ∈ cs ∧ c ∉ failed.
Proof.
  intros Hset. unfold list_of_set_difference.
  by rewrite (Hset _), elem_of_remove_dups, list_elem_of_difference.
Qed.

Lemma list_of_set_difference_NoDup cs failed :
  py_set_contract (set_iteration env) →
  NoDup (list_of_set_difference env cs failed).
Proof.
  intros Hset. unfold list_of_set_difference.
  rewrite (Hset _). apply NoDup_remove_dups.
Qed.

Lemma list_of_set_difference_applying cs :
  py_set_contract (set_iteration env) →
  NoDup cs →
  list_of_set_difference env cs (not_applying env directory cs)
  ≡ₚ applying env directory cs.
Proof.
  intros Hset Hcs. apply NoDup_Permutation.
  - by apply list_of_set_difference_NoDup.
  - by apply NoDup_filter.
  - intros c. by rewrite list_of_set_difference_elem_of, elem_of_applying.
Qed.

End ApplyPhase.

Lemma count_not_in (c : Change) (l : list Change) :
  c ∉ l → length (filter (λ c', c' = c) l) = 0%nat.
Proof.
  induction l as [|d l IH]; [done|]. intros Hc.
  apply not_elem_of_cons in Hc as [Hne Hc].
  rewrite filter_cons_False by congruence. by apply IH.
Qed.

Lemma count_in_NoDup (c : Change) (l : list Change) :
  NoDup l → c ∈ l → length (filter (λ c', c' = c) l) = 1%nat.
Proof.
  induction 1 as [|d l Hd Hl IH]; intros Hc.
  - by apply elem_of_nil in Hc.
  - apply elem_of_cons in Hc as [->|Hc].
    + rewrite filter_cons_True by done. simpl. by rewrite count_not_in.
    + rewrite filter_cons_False; [by apply IH|]. by intros ->.
Qed.

Lemma insert_by_slot_perm slot c l : insert_by_slot slot c l ≡ₚ c :: l.
Proof.
  induction l as [|d l IH]; [done|]. simpl.
  destruct (bool_decide (slot c < slot d)%nat); [done|].
  by rewrite IH, Permutation_swap.
Qed.

Lemma iteration_by_slot_contract slot : py_set_contract (iteration_by_slot slot).
Proof.
  intros l. unfold iteration_by_slot.
  induction l as [|c l IH]; [done|]. simpl.
  by rewrite insert_by_slot_perm, IH.
Qed.

Lemma applied_any_iff (l : list Change) :
  bool_decide (0 < length l)%nat = true ↔ l ≠ [].
Proof.
  rewrite bool_decide_eq_true. destruct l; simpl; split; (done || lia).
Qed.

(** C2.  For a pool without repeated changes, under a set iteration that
    keeps Python's promise: [ApplyPoolIntoRepo] applies every change of the
    pool, in order, whatever happened to the earlier ones; afterwards the
    changes of the pool are those of the original pool that are not among
    the failed ones, each once; a failed change received one could-not-apply
    notification and another change none; the method returns True exactly
    when a change remains in the pool. *)
Theorem ApplyPoolIntoRepo_isolates_failures env directory self w :
  py_set_contract (set_iteration env) →
  NoDup (changes self) →
  ∃ applied_any self' evs,
    ApplyPoolIntoRepo env directory (self, w)
    = (Ret applied_any, (self', advance w evs 0))
    ∧ apply_attempts evs = changes self
    ∧ (∀ c, c ∈ changes self'
            ↔ c ∈ changes self
              ∧ c ∉ not_applying env directory (changes self))
    ∧ changes self' ≡ₚ applying env directory (changes self)
    ∧ (∀ c, c ∈ not_applying env directory (changes self) →
            could_not_apply_count c evs = 1%nat)
    ∧ (∀ c, c ∉ not_applying env directory (changes self) →
            could_not_apply_count c evs = 0%nat)
    ∧ (applied_any = true ↔ changes self' ≠ []).
Proof.
  intros Hset Hcs.
  destruct (decide (not_applying env directory (changes self) = []))
    as [Hnone|Hsome].
  - eexists _, self, _. split; [by apply ApplyPoolIntoRepo_all_applied|].
    unfold could_not_apply_count.
    rewrite apply_attempts_apply_trace, could_not_apply_calls_apply_trace, Hnone.
    split_and!; try done.
    + intros c. split; [|tauto]. intros Hc. split; [done|]. apply not_elem_of_nil.
    + by rewrite applying_all.
    + intros c Hc. by apply elem_of_nil in Hc.
    + apply applied_any_iff.
  - eexists _, _, _. split; [by apply ApplyPoolIntoRepo_some_failed|].
    unfold could_not_apply_count, apply_attempts, could_not_apply_calls.
    rewrite !omap_app.
    fold (apply_attempts (apply_trace env directory (changes self))).
    fold (could_not_apply_calls (apply_trace env directory (changes self))).
    fold (apply_attempts (application_failure_trace self
            (not_applying env directory (changes self)))).
    fold (could_not_apply_calls (application_failure_trace self
            (not_applying env directory (changes self)))).
    rewrite apply_attempts_apply_trace, could_not_apply_calls_apply_trace,
      apply_attempts_failure_trace, could_not_apply_calls_failure_trace.
    cbn [omap list_omap app with_changes changes].
    rewrite app_nil_r.
    split_and!; try done.
    + intros c. by apply list_of_set_difference_elem_of.
    + by apply list_of_set_difference_applying.
    + intros c Hc. apply count_in_NoDup; [|done]. by apply NoDup_filter.
    + intros c Hc. by apply count_not_in.
    + apply applied_any_iff.
Qed.

(** C10.  There is a pool of distinct changes, one of which does not
    apply, and a set iteration that keeps Python's promise, for which the
    changes left in the pool are those that applied, but not in the order
    they had in the pool. *)
Theorem ApplyPoolIntoRepo_order_not_kept :
  ∃ env directory self w applied_any self' w',
    py_set_contract (set_iteration env)
    ∧ NoDup (changes self)
    ∧ not_applying env directory (changes self) ≠ []
    ∧ ApplyPoolIntoRepo env directory (self, w) = (Ret applied_any, (self', w'))
    ∧ changes self' ≡ₚ applying env directory (changes self)
    ∧ changes self' ≠ applying env directory (changes self).
Proof.
  exists Examples.tree_open_env, "/b"%string,
    (Examples.pool_of [Examples.change_a; Examples.change_b; Examples.change_c]),
    Examples.fresh_world.
  eexists _, _, _. split_and!.
  - apply iteration_by_slot_contract.
  - apply (bool_decide_unpack _). by vm_compute.
  - by vm_compute.
  - rewrite ApplyPoolIntoRepo_some_failed by by vm_compute. reflexivity.
  - vm_compute. apply Permutation_swap.
  - by vm_compute.
Qed.

(** C3, as stated, fails: four attempts end in an IOError and the fifth
    meets a 200 response whose body json.load rejects.  None of the five
    attempts obtains a well-formed response, all five requests are made, and
    the tree gate raises ValueError instead of answering open. *)
Lemma IsTreeOpen_undecodable_body_raises :
  (∀ i, (i < 5)%nat →
        well_formed_response
          (urlopen_result Examples.undecodable_env
             (requests Examples.fresh_world + i)) = false)
  ∧ _IsTreeOpen Examples.undecodable_env Examples.fresh_world
    = (Raise ValueError,
       mkWorld (backoff 1 4 ++ [EvUrlopen status_url]) 5 false)
  ∧ ¬ ∃ w', _IsTreeOpen Examples.undecodable_env Examples.fresh_world
            = (Ret true, w').
Proof.
  assert (_IsTreeOpen Examples.undecodable_env Examples.fresh_world
          = (Raise ValueError,
             mkWorld (backoff 1 4 ++ [EvUrlopen status_url]) 5 false)) as E
    by by vm_compute.
  split_and!.
  - intros i Hi.
    destruct i as [|[|[|[|[|i]]]]]; (reflexivity || lia).
  - exact E.
  - intros [w' E']. rewrite E in E'. discriminate.
Qed.

(** C1.  With the tree open and two changes in the pool, [SubmitPool]
    returns True after the submit of the first change: the second change is
    in the pool and no submit of it is in the trace. *)
Theorem SubmitPool_second_change_not_submitted :
  ∃ w',
    SubmitPool Examples.tree_open_env
      (Examples.pool_of [Examples.change_a; Examples.change_b],
       Examples.fresh_world)
    = (Ret (Some true),
       (Examples.pool_of [Examples.change_a; Examples.change_b], w'))
    ∧ submit_attempts (trace w') = [Examples.change_a]
    ∧ Examples.change_b ∉ submit_attempts (trace w').
Proof.
  eexists. split; [by vm_compute|]. split; [by vm_compute|].
  change (Examples.change_b ∉ [Examples.change_a]).
  apply not_elem_of_cons. split; [done|apply not_elem_of_nil].
Qed.

(** ** The properties at concrete pools *)

Lemma IsTreeOpen_verdict_witness :
  (∃ w', _IsTreeOpen Examples.unreachable_env Examples.fresh_world
         = (Ret true, w')
         ∧ EvWarn (CouldNotGetStatus status_url) ∈ trace w')
  ∧ (∃ tree_open w',
       _IsTreeOpen Examples.tree_closed_env Examples.fresh_world
       = (Ret tree_open, w')
       ∧ tree_open = false).
Proof.
  split.
  - destruct (IsTreeOpen_verdict Examples.unreachable_env
                Examples.fresh_world 5) as [Hopen _].
    + lia.
    + intros i _. reflexivity.
    + apply Hopen. reflexivity.
  - destruct (IsTreeOpen_verdict Examples.tree_closed_env
                Examples.fresh_world 0) as [_ Hverdict].
    + lia.
    + intros i Hi. lia.
    + destruct (Hverdict {[ "general_state"%string := JStr "closed" ]}
                  (JStr "closed")) as (tree_open & w' & E & _ & Hclosed).
      * lia.
      * reflexivity.
      * apply lookup_singleton_eq.
      * exists tree_open, w'. split; [exact E|].
        apply Hclosed. split; discriminate.
Defined.

Lemma ValidationPool_effective_dryrun_witness :
  ∃ pool, ValidationPool_call [false] (mkWorld [] 0 true)
          = (Ret pool, mkWorld [] 0 true)
          ∧ dryrun pool = true.
Proof.
  destruct (ValidationPool_effective_dryrun Examples.tree_open_env false
              (mkWorld [] 0 true)) as [(pool & E & _ & Hforced) _].
  exists pool. split; [exact E|]. apply Hforced. reflexivity.
Defined.

Lemma AcquirePool_tree_closed_witness :
  AcquirePool Examples.tree_closed_env "master" false "/b" false
    Examples.fresh_world
  = (Raise TreeIsClosedException, mkWorld [EvUrlopen status_url] 1 false)
  ∧ (∃ evs, [EvUrlopen status_url] = [] ++ evs
            ∧ Forall (λ e, is_change_source_call e = false) evs)
  ∧ (∀ e, is_TreeIsClosedException e = true ↔ e = TreeIsClosedException).
Proof.
  apply (AcquirePool_tree_closed Examples.tree_closed_env "master" false "/b"
           false Examples.fresh_world (mkWorld [EvUrlopen status_url] 1 false)).
  reflexivity.
Defined.

(** The tree is open when the pool is acquired and closed when it is
    submitted. *)
Lemma SubmitPool_tree_closed_witness :
  ∃ pool w1 w2,
    AcquirePool Examples.closing_env "master" false "/b" false
      Examples.fresh_world
    = (Ret pool, w1)
    ∧ changes pool ≠ []
    ∧ SubmitPool Examples.closing_env (pool, w1)
      = (Raise TreeIsClosedException, (pool, w2))
    ∧ (∃ evs, trace w2 = trace w1 ++ evs
              ∧ submit_attempts evs = []
              ∧ could_not_submit_calls evs = []).
Proof.
  eexists _, _, _. split; [vm_compute; reflexivity|].
  split; [discriminate|].
  apply SubmitPool_tree_closed. vm_compute. reflexivity.
Defined.

Lemma SubmitPool_empty_pool_witness :
  SubmitPool Examples.tree_open_env (Examples.pool_of [], Examples.fresh_world)
  = (Ret None, (Examples.pool_of [], mkWorld [EvUrlopen status_url] 1 false)).
Proof.
  apply SubmitPool_empty_pool; reflexivity.
Defined.

(** A pool of three changes, one of which does not apply. *)
Lemma ApplyPoolIntoRepo_isolates_failures_witness :
  ∃ applied_any self' evs,
    ApplyPoolIntoRepo Examples.tree_open_env "/b"
      (Examples.pool_of
         [Examples.change_a; Examples.change_b; Examples.change_c],
       Examples.fresh_world)
    = (Ret applied_any, (self', advance Examples.fresh_world evs 0))
    ∧ apply_attempts evs
      = [Examples.change_a; Examples.change_b; Examples.change_c]
    ∧ (∀ c, c ∈ changes self'
            ↔ c ∈ [Examples.change_a; Examples.change_b; Examples.change_c]
              ∧ c ∉ [Examples.change_b])
    ∧ changes self' ≡ₚ [Examples.change_a; Examples.change_c]
    ∧ (∀ c, c ∈ [Examples.change_b] → could_not_apply_count c evs = 1%nat)
    ∧ (∀ c, c ∉ [Examples.change_b] → could_not_apply_count c evs = 0%nat)
    ∧ (applied_any = true ↔ changes self' ≠ []).
Proof.
  apply (ApplyPoolIntoRepo_isolates_failures Examples.tree_open_env "/b"
           (Examples.pool_of
              [Examples.change_a; Examples.change_b; Examples.change_c])
           Examples.fresh_world).
  - apply iteration_by_slot_contract.
  - apply (bool_decide_unpack _). vm_compute. exact I.
Defined.

(** ** More on the tree gate *)

Section GateRuns.

Context (env : Env).

Lemma attempts_warning_attempt k w :
  ((if bool_decide (Z.of_nat k > 1)
    then emit (EvWarn (HadToAttempt status_url (Z.of_nat k)))
    else mret ()) : M World ()) w
  = (Ret (), advance w (attempts_warning k) 0).
Proof.
  unfold attempts_warning.
  destruct (decide (2 ≤ k)%nat) as [Hk|Hk].
  - rewrite !bool_decide_eq_true_2 by lia. apply emit_advance.
  - rewrite !bool_decide_eq_false_2 by lia. by rewrite advance_0.
Qed.

(** The tree gate when [k] attempts failed and the next one met a 200
    response with a body that decodes. *)
Lemma IsTreeOpen_after_answer k w j :
  (k < 5)%nat →
  (∀ i, (i < k)%nat →
        attempt_fails (urlopen_result env (requests w + i)) = true) →
  urlopen_result env (requests w + k) = Response 200 (Loaded j) →
  _IsTreeOpen env w
  = (match j with
     | JObj d =>
         match d !! "general_state" with
         | Some v => Ret (in_open_throttled v)
         | None => Raise KeyError
         end
     | JNonObj => Raise TypeError
     end,
     advance w (failed_attempts k ++ [EvUrlopen status_url]
                ++ attempts_warning k) (k + 1)).
Proof.
  intros Hk Hfail Hanswer. unfold _IsTreeOpen.
  erewrite bind_Ret by by apply attempt_loop_answer.
  cbv beta iota.
  erewrite bind_Ret by apply attempts_warning_attempt.
  rewrite advance_advance, Nat.add_0_r, <- app_assoc.
  change 1 with first_sleep. rewrite backoff_from_first.
  unfold getitem. destruct j as [d|]; [|done].
  by destruct (d !! "general_state").
Qed.

Lemma attempt_body_raises s w e :
  e ≠ IOError →
  urlopen_result env (requests w) = UrlopenRaises e
  ∨ urlopen_result env (requests w) = Response 200 (LoadRaises e) →
  attempt_body env s w = (Raise e, advance w [EvUrlopen status_url] 1).
Proof.
  intros He Ho.
  assert (is_IOError e = false) as Hne
    by by apply bool_decide_eq_false_2.
  unfold attempt_body, try_except, urlopen, json_load, advance, raise,
    mbind, M_bind, mret, M_ret. simpl.
  rewrite Nat.add_1_r.
  destruct Ho as [->| ->]; simpl; by rewrite Hne.
Qed.

(** The tree gate when [k] attempts failed and the next one raised
    something else than IOError. *)
Lemma IsTreeOpen_after_raise k w e :
  (k < 5)%nat →
  (∀ i, (i < k)%nat →
        attempt_fails (urlopen_result env (requests w + i)) = true) →
  e ≠ IOError →
  urlopen_result env (requests w + k) = UrlopenRaises e
  ∨ urlopen_result env (requests w + k) = Response 200 (LoadRaises e) →
  _IsTreeOpen env w
  = (Raise e, advance w (failed_attempts k ++ [EvUrlopen status_url]) (k + 1)).
Proof.
  intros Hk Hfail He Ho. unfold _IsTreeOpen.
  erewrite bind_Raise; [reflexivity|].
  rewrite (attempt_loop_skip env k) by (done || (simpl; lia)).
  rewrite drop_py_range by done. cbn [attempt_loop].
  erewrite bind_Raise by by apply attempt_body_raises.
  rewrite advance_advance.
  change 1 with first_sleep at 1. by rewrite backoff_from_first.
Qed.

Lemma IsTreeOpen_exhausted w :
  (∀ i, (i < 5)%nat →
        attempt_fails (urlopen_result env (requests w + i)) = true) →
  _IsTreeOpen env w
  = (Ret true,
     advance w (failed_attempts 5 ++ [EvWarn (CouldNotGetStatus status_url)])
       5).
Proof.
  intros Hfail. unfold _IsTreeOpen.
  erewrite bind_Ret by by apply attempt_loop_exhausted.
  cbv beta iota. erewrite bind_Ret by apply emit_advance.
  rewrite advance_advance, Nat.add_0_r.
  change 1 with first_sleep. by rewrite backoff_from_first.
Qed.

(** A loop over a range that is not empty issues a request. *)
Lemma attempt_loop_progress attempt range s w :
  ∃ r k final,
    attempt_loop env (attempt :: range) s w
    = (r, advance w (backoff s k ++ replicate final (EvUrlopen status_url))
            (k + final))
    ∧ (1 ≤ k + final ≤ S (length range))%nat.
Proof.
  cbn [attempt_loop].
  destruct (attempt_fails (urlopen_result env (requests w))) eqn:Hf.
  - erewrite bind_Ret by by apply attempt_body_fails.
    destruct (attempt_loop_trace env range (s * 2)
                (advance w [EvUrlopen status_url; EvSleep s] 1))
      as (r & k & final & E & Hk & _).
    exists r, (S k), final. rewrite E, advance_advance.
    split; [|lia]. do 2 f_equal.
  - destruct (attempt_body_resolves env s w Hf) as (r & E & Hr).
    exists (match r with
            | Ret (Break response_dict) => Ret (Some (response_dict, attempt))
            | Ret (Next _) => Ret None
            | Raise e => Raise e
            end), 0%nat, 1%nat.
    split; [|simpl; lia].
    destruct r as [[j|s']|e].
    + by erewrite bind_Ret by exact E.
    + by destruct (Hr s').
    + by erewrite bind_Raise by exact E.
Qed.

(** What follows the loop issues no request. *)
Lemma IsTreeOpen_requests_of_loop w r0 w0 :
  attempt_loop env (py_range max_attempts) 1 w = (r0, w0) →
  ∃ r w', _IsTreeOpen env w = (r, w') ∧ requests w' = requests w0.
Proof.
  intros E. unfold _IsTreeOpen.
  destruct r0 as [[[response_dict attempt]|]|e].
  - rewrite (bind_Ret _ _ _ _ _ E). cbv beta iota.
    destruct (bool_decide (attempt > 1)).
    + erewrite bind_Ret by apply emit_advance.
      destruct (getitem response_dict "general_state"
                  (advance w0 [EvWarn (HadToAttempt status_url attempt)] 0))
        as [r1 w1] eqn:Eg.
      assert (w1 = advance w0 [EvWarn (HadToAttempt status_url attempt)] 0)
        as ->.
      { unfold getitem in Eg. destruct response_dict as [d|];
          [destruct (d !! "general_state")|]; by injection Eg. }
      destruct r1 as [v|e1].
      * erewrite bind_Ret by exact Eg. eexists _, _. split; [reflexivity|].
        simpl. lia.
      * erewrite bind_Raise by exact Eg. eexists _, _. split; [reflexivity|].
        simpl. lia.
    + erewrite bind_Ret by reflexivity.
      destruct (getitem response_dict "general_state" w0) as [r1 w1] eqn:Eg.
      assert (w1 = w0) as ->.
      { unfold getitem in Eg. destruct response_dict as [d|];
          [destruct (d !! "general_state")|]; by injection Eg. }
      destruct r1 as [v|e1].
      * erewrite bind_Ret by exact Eg. by eexists _, _.
      * erewrite bind_Raise by exact Eg. by eexists _, _.
  - rewrite (bind_Ret _ _ _ _ _ E). cbv beta iota.
    erewrite bind_Ret by apply emit_advance.
    eexists _, _. split; [reflexivity|]. simpl. lia.
  - rewrite (bind_Raise _ _ _ _ _ E). by eexists _, _.
Qed.

(** X1.  Every call of the tree gate contacts the status page: it issues
    at least one request and at most five, whatever the answers are. *)
Theorem IsTreeOpen_requests_bounds w :
  ∃ r w',
    _IsTreeOpen env w = (r, w')
    ∧ (requests w < requests w' ≤ requests w + 5)%nat.
Proof.
  destruct (attempt_loop_progress 0 (Z.of_nat <$> seq 1 4) 1 w)
    as (r0 & k & final & E & Hk).
  destruct (IsTreeOpen_requests_of_loop w _ _ E) as (r & w' & E' & Hw').
  exists r, w'. split; [exact E'|]. rewrite Hw'. simpl in *. lia.
Qed.

(** X2.  When [k] attempts failed and the next one, one of the five, meets
    a 200 response that decodes to a dictionary with a [general_state], the
    tree gate answers at once: it sleeps after the failed attempts only,
    issues [k + 1] requests, and warns exactly when two or more attempts
    failed, and then with [k], the number of failed attempts. *)
Theorem IsTreeOpen_answer_trace w k d general_state :
  (k < 5)%nat →
  (∀ i, (i < k)%nat →
        attempt_fails (urlopen_result env (requests w + i)) = true) →
  urlopen_result env (requests w + k) = Response 200 (Loaded (JObj d)) →
  d !! "general_state" = Some general_state →
  ∃ w',
    _IsTreeOpen env w = (Ret (in_open_throttled general_state), w')
    ∧ requests w' = (requests w + (k + 1))%nat
    ∧ trace w'
      = trace w ++ failed_attempts k ++ [EvUrlopen status_url]
        ++ (if bool_decide (2 ≤ k)%nat
            then [EvWarn (HadToAttempt status_url (Z.of_nat k))]
            else []).
Proof.
  intros Hk Hfail Hanswer Hstate.
  rewrite (IsTreeOpen_after_answer k w (JObj d)) by done.
  rewrite Hstate. by eexists.
Qed.

(** X3.  A 200 response that decodes to a dictionary without a
    [general_state] makes the tree gate raise KeyError, and one that decodes
    to something else than a dictionary TypeError; no further request is
    issued. *)
Theorem IsTreeOpen_answer_without_state w k j :
  (k < 5)%nat →
  (∀ i, (i < k)%nat →
        attempt_fails (urlopen_result env (requests w + i)) = true) →
  urlopen_result env (requests w + k) = Response 200 (Loaded j) →
  (∀ d, j = JObj d → d !! "general_state" = None) →
  ∃ w',
    _IsTreeOpen env w
    = (Raise (match j with JObj _ => KeyError | JNonObj => TypeError end), w')
    ∧ requests w' = (requests w + (k + 1))%nat.
Proof.
  intros Hk Hfail Hanswer Hstate.
  rewrite (IsTreeOpen_after_answer k w j) by done.
  destruct j as [d|]; [rewrite (Hstate d) by done|]; by eexists.
Qed.

(** X4.  An exception other than IOError, raised by the request or by
    decoding the body of a 200 response, leaves the tree gate as it is: no
    sleep follows, no further request is issued and nothing is logged. *)
Theorem IsTreeOpen_other_error_propagates w k e :
  (k < 5)%nat →
  (∀ i, (i < k)%nat →
        attempt_fails (urlopen_result env (requests w + i)) = true) →
  e ≠ IOError →
  urlopen_result env (requests w + k) = UrlopenRaises e
  ∨ urlopen_result env (requests w + k) = Response 200 (LoadRaises e) →
  ∃ w',
    _IsTreeOpen env w = (Raise e, w')
    ∧ requests w' = (requests w + (k + 1))%nat
    ∧ trace w' = trace w ++ failed_attempts k ++ [EvUrlopen status_url].
Proof.
  intros Hk Hfail He Ho.
  rewrite (IsTreeOpen_after_raise k w e) by done. by eexists.
Qed.

(** X5.  When all five attempts fail, the tree gate has slept after each of
    them, the fifth included: 1, 2, 4, 8 and 16 seconds, 31 in all, before
    it warns and answers open. *)
Theorem IsTreeOpen_exhausted_sleeps w :
  (∀ i, (i < 5)%nat →
        attempt_fails (urlopen_result env (requests w + i)) = true) →
  ∃ w' evs,
    _IsTreeOpen env w = (Ret true, w')
    ∧ trace w' = trace w ++ evs
    ∧ evs = failed_attempts 5 ++ [EvWarn (CouldNotGetStatus status_url)]
    ∧ request_count evs = 5%nat
    ∧ sleeps evs = [1; 2; 4; 8; 16]
    ∧ foldr Z.add 0 (sleeps evs) = 31.
Proof.
  intros Hfail. rewrite IsTreeOpen_exhausted by done.
  eexists _, _. split; [reflexivity|]. split; [reflexivity|].
  split; [reflexivity|]. by vm_compute.
Qed.

(** The attempts that fail before the tree gate resolves: [k] of the [n]
    it may make, the one after them, if there is one, not failing. *)
Lemma failed_prefix n start :
  ∃ k, (k ≤ n)%nat
       ∧ (∀ i, (i < k)%nat →
               attempt_fails (urlopen_result env (start + i)) = true)
       ∧ ((k < n)%nat →
          attempt_fails (urlopen_result env (start + k)) = false).
Proof.
  induction n as [|n (k & Hk & Hfail & Hstop)].
  - exists 0%nat. split; [lia|]. split; intros; lia.
  - destruct (decide (k < n)%nat) as [Hlt|Hge].
    { exists k. split; [lia|]. split; [done|]. intros _. by apply Hstop. }
    assert (k = n) as -> by lia.
    destruct (attempt_fails (urlopen_result env (start + n))) eqn:Hn.
    + exists (S n). split; [lia|]. split; [|lia].
      intros i Hi. destruct (decide (i = n)) as [->|Hne]; [done|].
      apply Hfail. lia.
    + exists n. split; [lia|]. by split.
Qed.

Lemma attempts_warning_cases k :
  attempts_warning k = [] ∨ ∃ record, attempts_warning k = [EvWarn record].
Proof.
  unfold attempts_warning. destruct (bool_decide (2 ≤ k)%nat); eauto.
Qed.

(** The requests and the sleeps of a trace of the tree gate. *)
Lemma gate_trace_projections k final warnings :
  warnings = [] ∨ (∃ record, warnings = [EvWarn record]) →
  request_count
    (failed_attempts k ++ replicate final (EvUrlopen status_url) ++ warnings)
  = (k + final)%nat
  ∧ sleeps
      (failed_attempts k ++ replicate final (EvUrlopen status_url) ++ warnings)
    = (λ n, first_sleep * 2 ^ (Z.of_nat n - 1)) <$> seq 1 k.
Proof.
  intros Hws. split.
  - unfold request_count. rewrite !filter_app, !length_app.
    fold (request_count (failed_attempts k)).
    fold (request_count (replicate final (EvUrlopen status_url))).
    rewrite request_count_failed_attempts, request_count_requests.
    destruct Hws as [->|[record ->]]; [simpl; lia|].
    rewrite filter_cons_False by discriminate. simpl. lia.
  - unfold sleeps. rewrite !omap_app.
    fold (sleeps (failed_attempts k)).
    fold (sleeps (replicate final (EvUrlopen status_url))).
    rewrite sleeps_failed_attempts, sleeps_requests.
    destruct Hws as [->|[record ->]]; simpl; by rewrite app_nil_r.
Qed.

(** C7.  The tree gate issues at most 5 requests before it resolves, and the
    sleep that follows the n-th failed attempt lasts 2^(n-1) times the first
    interval of one second.  Let [k] be the number of attempts that fail one
    after the other from the first, 5 at most: the attempts before the
    [k]-th fail and the one after them, if [k] is less than 5, does not.
    The trace that a call adds is these [k] failed attempts, each a request
    followed by its sleep, then one more request if [k] is less than 5 and
    none otherwise, then at most one warning; the requests are no more than
    5 and the sleeps are 1, 2, 4, ... in this order, one for each failed
    attempt. *)
Theorem IsTreeOpen_attempts_and_backoff w :
  ∃ r w' evs k final warnings,
    _IsTreeOpen env w = (r, w')
    ∧ trace w' = trace w ++ evs
    ∧ (k ≤ 5)%nat
    ∧ (∀ i, (i < k)%nat →
            attempt_fails (urlopen_result env (requests w + i)) = true)
    ∧ ((k < 5)%nat →
       attempt_fails (urlopen_result env (requests w + k)) = false)
    ∧ final = (if bool_decide (k < 5)%nat then 1 else 0)%nat
    ∧ evs = failed_attempts k ++ replicate final (EvUrlopen status_url)
            ++ warnings
    ∧ (warnings = [] ∨ ∃ record, warnings = [EvWarn record])
    ∧ request_count evs = (k + final)%nat
    ∧ (request_count evs ≤ 5)%nat
    ∧ (final ≤ 1)%nat
    ∧ first_sleep = 1
    ∧ sleeps evs = (λ n, first_sleep * 2 ^ (Z.of_nat n - 1)) <$> seq 1 k.
Proof.
  destruct (failed_prefix 5 (requests w)) as (k & Hk & Hfail & Hstop).
  assert (∀ r warnings,
            _IsTreeOpen env w
            = (r, advance w (failed_attempts k ++ [EvUrlopen status_url]
                             ++ warnings) (k + 1)) →
            (k < 5)%nat →
            warnings = [] ∨ (∃ record, warnings = [EvWarn record]) →
            ∃ r w' evs k final warnings,
              _IsTreeOpen env w = (r, w')
              ∧ trace w' = trace w ++ evs
              ∧ (k ≤ 5)%nat
              ∧ (∀ i, (i < k)%nat →
                      attempt_fails (urlopen_result env (requests w + i))
                      = true)
              ∧ ((k < 5)%nat →
                 attempt_fails (urlopen_result env (requests w + k)) = false)
              ∧ final = (if bool_decide (k < 5)%nat then 1 else 0)%nat
              ∧ evs = failed_attempts k
                      ++ replicate final (EvUrlopen status_url) ++ warnings
              ∧ (warnings = [] ∨ ∃ record, warnings = [EvWarn record])
              ∧ request_count evs = (k + final)%nat
              ∧ (request_count evs ≤ 5)%nat
              ∧ (final ≤ 1)%nat
              ∧ first_sleep = 1
              ∧ sleeps evs
                = (λ n, first_sleep * 2 ^ (Z.of_nat n - 1)) <$> seq 1 k)
    as Hresolved.
  { intros r ws E Hlt Hws.
    destruct (gate_trace_projections k 1 ws Hws) as [Hcount Hsleeps].
    cbn [replicate] in Hcount, Hsleeps.
    eexists r, _, _, k, 1%nat, ws.
    split; [exact E|]. split; [reflexivity|]. split; [done|].
    split; [done|]. split; [done|].
    split; [by rewrite bool_decide_eq_true_2|].
    split; [reflexivity|]. split; [done|].
    rewrite Hcount. repeat split; (done || lia). }
  destruct (decide (k < 5)%nat) as [Hlt|Hge].
  - specialize (Hstop Hlt).
    destruct (urlopen_result env (requests w + k)) as [e|code body] eqn:Ho.
    + apply (Hresolved (Raise e) []); [|done|by left].
      rewrite (IsTreeOpen_after_raise k w e); try done.
      * intros ->. discriminate.
      * by left.
    + simpl in Hstop. destruct (bool_decide (code = 200)) eqn:Hcode; [|done].
      apply bool_decide_eq_true in Hcode as ->.
      destruct body as [e|j].
      * apply (Hresolved (Raise e) []); [|done|by left].
        rewrite (IsTreeOpen_after_raise k w e); try done.
        -- intros ->. discriminate.
        -- by right.
      * eapply (Hresolved _ (attempts_warning k));
          [by apply IsTreeOpen_after_answer|done|].
        apply attempts_warning_cases.
  - assert (k = 5%nat) as -> by lia.
    destruct (gate_trace_projections 5 0
                [EvWarn (CouldNotGetStatus status_url)]) as [Hcount Hsleeps];
      [right; eauto|].
    cbn [replicate app] in Hcount, Hsleeps.
    eexists (Ret true), _, _, 5%nat, 0%nat,
      [EvWarn (CouldNotGetStatus status_url)].
    split; [by apply IsTreeOpen_exhausted|].
    split; [reflexivity|]. split; [done|]. split; [done|].
    split; [lia|]. split; [done|]. split; [reflexivity|].
    split; [right; eauto|].
    rewrite Hcount. repeat split; (done || lia).
Qed.

End GateRuns.

(** ** More on the pool *)

Section PoolRuns.

Context (env : Env).

Lemma HandleValidationFailure_loop cs : ∀ self w,
  for_each cs (λ change,
    in_world (emit (EvLogInfo (ValidationFailedFor change)));;
    self ← get_self;
    in_world (emit (EvHandleCouldNotVerify change (gerrit_helper self)
                      (dryrun self)))) (self, w)
  = (Ret (), (self, advance w (validation_failure_trace self cs) 0)).
Proof.
  unfold validation_failure_trace.
  induction cs as [|c cs IH]; intros self w.
  - simpl. by rewrite advance_0.
  - cbn [for_each mbind list_bind].
    erewrite bind_Ret; last first.
    { erewrite bind_Ret by (apply in_world_run, emit_advance).
      cbv beta. erewrite bind_Ret by reflexivity.
      apply in_world_run, emit_advance. }
    by rewrite IH, !advance_advance.
Qed.

Lemma HandleValidationFailure_run self w :
  HandleValidationFailure (self, w)
  = (Ret (),
     (self,
      advance w (EvLogInfo ValidationFailedAll
                 :: validation_failure_trace self (changes self)) 0)).
Proof.
  unfold HandleValidationFailure.
  erewrite bind_Ret by (apply in_world_run, emit_advance).
  cbv beta. erewrite bind_Ret by reflexivity.
  by rewrite HandleValidationFailure_loop, advance_advance.
Qed.

Lemma could_not_verify_validation_trace self cs :
  could_not_verify_notifications (validation_failure_trace self cs)
  = (λ c, (c, gerrit_helper self, dryrun self)) <$> cs.
Proof.
  unfold could_not_verify_notifications, validation_failure_trace.
  induction cs as [|c cs IH]; [done|].
  cbn [mbind list_bind fmap list_fmap]. by rewrite omap_app, IH.
Qed.

Lemma could_not_apply_failure_trace self cs :
  could_not_apply_notifications (application_failure_trace self cs)
  = (λ c, (c, gerrit_helper self, dryrun self)) <$> cs.
Proof.
  unfold could_not_apply_notifications, application_failure_trace.
  induction cs as [|c cs IH]; [done|].
  cbn [mbind list_bind fmap list_fmap]. by rewrite omap_app, IH.
Qed.

Lemma validation_trace_quiet self cs :
  Forall (λ e, is_gate_event e = false ∧ is_change_source_call e = false)
    (validation_failure_trace self cs)
  ∧ submit_attempts (validation_failure_trace self cs) = [].
Proof.
  unfold validation_failure_trace, submit_attempts.
  induction cs as [|c cs [IH1 IH2]]; [by split|].
  cbn [mbind list_bind]. rewrite omap_app, IH2. split; [|done].
  apply Forall_app. split; [|done]. by repeat constructor.
Qed.

(** X6.  [HandleValidationFailure] tells the review system of every change
    of the pool, once each and in the order of the pool, that it could not
    be verified, with the helper and the dry-run flag of the pool; it leaves
    the pool as it is, asks the status page nothing and submits nothing. *)
Theorem HandleValidationFailure_notifies_all self w :
  ∃ evs,
    HandleValidationFailure (self, w) = (Ret (), (self, advance w evs 0))
    ∧ could_not_verify_notifications evs
      = (λ c, (c, gerrit_helper self, dryrun self)) <$> changes self
    ∧ Forall (λ e, is_gate_event e = false ∧ is_change_source_call e = false)
        evs
    ∧ submit_attempts evs = [].
Proof.
  eexists. split; [apply HandleValidationFailure_run|].
  destruct (validation_trace_quiet self (changes self)) as [Hquiet Hsubmit].
  split_and!.
  - change (could_not_verify_notifications
              (validation_failure_trace self (changes self))
            = (λ c, (c, gerrit_helper self, dryrun self)) <$> changes self).
    apply could_not_verify_validation_trace.
  - by constructor.
  - exact Hsubmit.
Qed.


Lemma AcquirePool_open_run branch internal buildroot dryrun w w' :
  _IsTreeOpen env w = (Ret true, w') →
  let h := mkGerritHelper internal in
  let raw := changes_ready env h branch in
  AcquirePool env branch internal buildroot dryrun w
  = (Ret (mkPool (projects_in_source_tree env h raw buildroot) (Some h)
            (dryrun || GLOBAL_DRYRUN w)),
     advance w' [EvGerritHelper internal;
                 EvGrabChangesReadyForCommit h branch;
                 EvFilterProjectsNotInSourceTree h raw buildroot] 0).
Proof.
  intros Egate h raw.
  destruct (IsTreeOpen_gate_events _ _ _ _ Egate) as (evs & _ & _ & Hglobal).
  unfold AcquirePool. rewrite (bind_Ret _ _ _ _ _ Egate). cbv beta iota.
  erewrite bind_Ret by apply ValidationPool_call_one.
  unfold new_GerritHelper, GrabChangesReadyForCommit,
    FilterProjectsNotInSourceTree, with_changes, with_gerrit_helper, emit,
    advance, mbind, M_bind, mret, M_ret. simpl.
  by rewrite Hglobal, <- !app_assoc, Nat.add_0_r.
Qed.

(** X8.  With the tree gate reporting open, [AcquirePool] makes the Gerrit
    helper, lists the changes ready on the branch and filters exactly that
    list by the build root, in this order; the pool it returns holds the
    filtered changes, the helper, and the dry-run flag joined with the
    process-wide one. *)
Theorem AcquirePool_tree_open branch internal buildroot d w w' :
  _IsTreeOpen env w = (Ret true, w') →
  ∃ pool w1 h raw,
    AcquirePool env branch internal buildroot d w = (Ret pool, w1)
    ∧ h = mkGerritHelper internal
    ∧ raw = changes_ready env h branch
    ∧ trace w1
      = trace w' ++ [EvGerritHelper internal;
                     EvGrabChangesReadyForCommit h branch;
                     EvFilterProjectsNotInSourceTree h raw buildroot]
    ∧ changes pool = projects_in_source_tree env h raw buildroot
    ∧ gerrit_helper pool = Some h
    ∧ dryrun pool = d || GLOBAL_DRYRUN w.
Proof.
  intros Egate. eexists _, _, _, _.
  split; [by apply AcquirePool_open_run|]. by repeat split.
Qed.

(** X9.  An exception that the tree gate raises leaves [AcquirePool] and
    [SubmitPool] as it is, not as TreeIsClosedException: nothing is asked of
    the change source, nothing is submitted and the pool is as it was. *)
Theorem tree_gate_error_propagates branch internal buildroot dryrun self w w' e :
  _IsTreeOpen env w = (Raise e, w') →
  AcquirePool env branch internal buildroot dryrun w = (Raise e, w')
  ∧ SubmitPool env (self, w) = (Raise e, (self, w'))
  ∧ (∃ evs, trace w' = trace w ++ evs
            ∧ Forall (λ e, is_change_source_call e = false) evs
            ∧ submit_attempts evs = []).
Proof.
  intros Egate. split_and!.
  - unfold AcquirePool. by rewrite (bind_Raise _ _ _ _ _ Egate).
  - unfold SubmitPool.
    by erewrite bind_Raise by (apply in_world_run, Egate).
  - destruct (IsTreeOpen_gate_events _ _ _ _ Egate) as (evs & Htrace & Hevs & _).
    exists evs. split; [done|]. split.
    + eapply Forall_impl; [exact Hevs|]. apply gate_event_no_change_source.
    + by apply gate_events_no_submit.
Qed.

(** X10.  A RunCommandError of [Submit] does not leave [SubmitPool]: with
    the tree open, the first change of the pool is submitted with the helper
    and the dry-run flag of the pool, [HandleCouldNotSubmit] is called for it
    exactly when its submit raised, and the result is True in both cases,
    the pool being as it was. *)
Theorem SubmitPool_submit_failure_handled self w w' c rest :
  _IsTreeOpen env w = (Ret true, w') →
  changes self = c :: rest →
  ∃ evs,
    SubmitPool env (self, w) = (Ret (Some true), (self, advance w' evs 0))
    ∧ submit_calls evs = [(c, gerrit_helper self, dryrun self)]
    ∧ could_not_submit_calls evs = (if submit_raises env c then [c] else [])
    ∧ Forall (λ e, is_gate_event e = false) evs.
Proof.
  intros Egate Hchanges. exists (submit_trace env self c).
  split; [by eapply SubmitPool_first_change|].
  unfold submit_trace, could_not_submit_calls, submit_calls.
  destruct (submit_raises env c); simpl;
    (split; [done|]; split; [done|]; by repeat constructor).
Qed.

End PoolRuns.

(** ** More on the apply phase, and the phases together *)

Section ApplyRuns.

Context (env : Env) (directory : string).

Lemma not_applying_none cs :
  (∀ c, c ∈ cs → apply_raises env c directory = false) →
  not_applying env directory cs = []
  ∧ apply_trace env directory cs
    = cs ≫= λ c, [EvApply c directory true; EvPrintLink c].
Proof.
  unfold not_applying, apply_trace.
  induction cs as [|c cs IH]; intros Hcs; [done|].
  assert (apply_raises env c directory = false) as Hc
    by (apply Hcs; left).
  destruct IH as [IH1 IH2]; [intros c' Hc'; apply Hcs; by right|].
  rewrite filter_cons_False by (by rewrite Hc).
  cbn [mbind list_bind]. by rewrite Hc, IH1, IH2.
Qed.

Lemma not_applying_all cs :
  (∀ c, c ∈ cs → apply_raises env c directory = true) →
  not_applying env directory cs = cs.
Proof.
  unfold not_applying.
  induction cs as [|c cs IH]; intros Hcs; [done|].
  rewrite filter_cons_True by (apply Hcs; left).
  rewrite IH; [done|]. intros c' Hc'. apply Hcs. by right.
Qed.

Lemma list_difference_self (l : list Change) : list_difference l l = [].
Proof.
  destruct (list_difference l l) as [|c k] eqn:E; [done|].
  assert (c ∈ list_difference l l) as Hc by (rewrite E; left).
  apply list_elem_of_difference in Hc as [Hin Hout]. by destruct Hout.
Qed.

Lemma apply_trace_phase cs :
  Forall (λ e, is_apply_phase_event e = true) (apply_trace env directory cs)
  ∧ could_not_apply_notifications (apply_trace env directory cs) = [].
Proof.
  unfold apply_trace, could_not_apply_notifications.
  induction cs as [|c cs [IH1 IH2]]; [by split|].
  cbn [mbind list_bind]. rewrite omap_app, IH2, Forall_app.
  destruct (apply_raises env c directory); by repeat constructor.
Qed.

Lemma failure_trace_phase self cs :
  Forall (λ e, is_apply_phase_event e = true)
    (application_failure_trace self cs).
Proof.
  unfold application_failure_trace.
  induction cs as [|c cs IH]; [done|].
  cbn [mbind list_bind]. apply Forall_app. by repeat constructor.
Qed.

(** The changes that [ApplyPoolIntoRepo] leaves in the pool were in it and
    applied. *)
Lemma ApplyPoolIntoRepo_members self w r self1 w1 c :
  py_set_contract (set_iteration env) →
  ApplyPoolIntoRepo env directory (self, w) = (r, (self1, w1)) →
  c ∈ changes self1 →
  c ∈ changes self ∧ apply_raises env c directory = false.
Proof.
  intros Hset E Hc.
  destruct (decide (not_applying env directory (changes self) = []))
    as [Hnone|Hsome].
  - rewrite ApplyPoolIntoRepo_all_applied in E by done.
    injection E as _ <- _. split; [done|].
    destruct (apply_raises env c directory) eqn:Hraises; [|done].
    assert (c ∈ not_applying env directory (changes self)) as Hin
      by by apply elem_of_not_applying.
    rewrite Hnone in Hin. by apply elem_of_nil in Hin.
  - rewrite ApplyPoolIntoRepo_some_failed in E by done.
    injection E as _ <- _. cbn [with_changes changes] in Hc.
    apply list_of_set_difference_elem_of in Hc as [Hin Hout]; [|done].
    split; [done|].
    destruct (apply_raises env c directory) eqn:Hraises; [|done].
    destruct Hout. by apply elem_of_not_applying.
Qed.

(** X11.  When every change of the pool applies, [ApplyPoolIntoRepo] leaves
    the pool exactly as it is, the order and the repeated changes included,
    prints a link for every change, notifies nobody, and returns True
    exactly when the pool is not empty. *)
Theorem ApplyPoolIntoRepo_all_apply self w :
  (∀ c, c ∈ changes self → apply_raises env c directory = false) →
  ApplyPoolIntoRepo env directory (self, w)
  = (Ret (bool_decide (changes self ≠ [])),
     (self,
      advance w (changes self
                 ≫= λ c, [EvApply c directory true; EvPrintLink c]) 0)).
Proof.
  intros Hall. destruct (not_applying_none _ Hall) as [Hnone Htrace].
  rewrite ApplyPoolIntoRepo_all_applied, Htrace by done.
  do 2 f_equal. apply bool_decide_ext.
  destruct (changes self); simpl; split; (done || lia).
Qed.


(** X13.  When no change of a pool that is not empty applies,
    [ApplyPoolIntoRepo] notifies for every change, leaves the pool empty and
    returns False. *)
Theorem ApplyPoolIntoRepo_all_fail self w :
  py_set_contract (set_iteration env) →
  changes self ≠ [] →
  (∀ c, c ∈ changes self → apply_raises env c directory = true) →
  ∃ self' evs,
    ApplyPoolIntoRepo env directory (self, w)
    = (Ret false, (self', advance w evs 0))
    ∧ changes self' = []
    ∧ could_not_apply_calls evs = changes self.
Proof.
  intros Hset Hsome Hall.
  pose proof (not_applying_all _ Hall) as Hfailed.
  assert (list_of_set_difference env (changes self) (changes self) = [])
    as Hempty.
  { unfold list_of_set_difference. rewrite list_difference_self.
    apply Permutation_nil_r. apply Hset. }
  eexists _, _. rewrite ApplyPoolIntoRepo_some_failed by by rewrite Hfailed.
  rewrite Hfailed, Hempty. split; [reflexivity|]. split; [done|].
  unfold could_not_apply_calls. rewrite !omap_app.
  fold (could_not_apply_calls (apply_trace env directory (changes self))).
  fold (could_not_apply_calls (application_failure_trace self (changes self))).
  by rewrite could_not_apply_calls_apply_trace,
    could_not_apply_calls_failure_trace.
Qed.

(** X14.  [ApplyPoolIntoRepo] keeps to its phase: whatever the pool, it
    issues no request to the status page, submits nothing and asks nothing
    of the change source; it leaves the helper and the dry-run flag of the
    pool alone, and every could-not-apply notification carries them. *)
Theorem ApplyPoolIntoRepo_keeps_to_its_phase self w :
  ∃ applied_any self' evs,
    ApplyPoolIntoRepo env directory (self, w)
    = (Ret applied_any, (self', advance w evs 0))
    ∧ gerrit_helper self' = gerrit_helper self
    ∧ dryrun self' = dryrun self
    ∧ Forall (λ e, is_apply_phase_event e = true) evs
    ∧ could_not_apply_notifications evs
      = (λ c, (c, gerrit_helper self, dryrun self))
        <$> not_applying env directory (changes self).
Proof.
  destruct (apply_trace_phase (changes self)) as [Hphase Hquiet].
  destruct (decide (not_applying env directory (changes self) = []))
    as [Hnone|Hsome].
  - eexists _, _, _. split; [by apply ApplyPoolIntoRepo_all_applied|].
    rewrite Hnone. by repeat split.
  - eexists _, _, _. split; [by apply ApplyPoolIntoRepo_some_failed|].
    split; [done|]. split; [done|]. split.
    + rewrite !Forall_app. split_and!; [done|by repeat constructor|].
      apply failure_trace_phase.
    + unfold could_not_apply_notifications in *. rewrite !omap_app, Hquiet.
      apply could_not_apply_failure_trace.
Qed.

End ApplyRuns.

Section Phases.

Context (env : Env).

Lemma submit_attempts_submit_trace self c :
  submit_attempts (submit_trace env self c) = [c].
Proof.
  unfold submit_attempts, submit_trace.
  by destruct (submit_raises env c).
Qed.

(** [SubmitPool] submits nothing but the first change of the pool. *)
Lemma SubmitPool_attempts self w res self2 w2 :
  SubmitPool env (self, w) = (res, (self2, w2)) →
  ∃ evs, trace w2 = trace w ++ evs
         ∧ ∀ c, c ∈ submit_attempts evs → head (changes self) = Some c.
Proof.
  intros E.
  destruct (_IsTreeOpen env w) as [r w'] eqn:Egate.
  destruct (IsTreeOpen_gate_events _ _ _ _ Egate)
    as (gevs & Htrace & Hgevs & _).
  destruct (gate_events_no_submit _ Hgevs) as [Hnone _].
  destruct r as [[|]|e].
  - destruct (changes self) as [|c rest] eqn:Hchanges.
    + unfold SubmitPool in E.
      erewrite bind_Ret in E by (apply in_world_run, Egate).
      cbv beta iota in E. erewrite bind_Ret in E by reflexivity.
      rewrite Hchanges in E. injection E as _ _ <-.
      exists gevs. split; [done|]. rewrite Hnone. intros c Hc.
      by apply elem_of_nil in Hc.
    + erewrite SubmitPool_first_change in E by done.
      injection E as _ _ <-.
      exists (gevs ++ submit_trace env self c). split.
      * simpl. by rewrite Htrace, <- app_assoc.
      * unfold submit_attempts in *. rewrite omap_app, Hnone.
        fold (submit_attempts (submit_trace env self c)).
        rewrite submit_attempts_submit_trace.
        intros c' Hc'. apply list_elem_of_singleton in Hc'. by subst.
  - unfold SubmitPool in E.
    erewrite bind_Ret in E by (apply in_world_run, Egate).
    injection E as _ _ <-.
    exists gevs. split; [done|]. rewrite Hnone. intros c Hc.
    by apply elem_of_nil in Hc.
  - unfold SubmitPool in E.
    erewrite bind_Raise in E by (apply in_world_run, Egate).
    injection E as _ _ <-.
    exists gevs. split; [done|]. rewrite Hnone. intros c Hc.
    by apply elem_of_nil in Hc.
Qed.

(** X15.  A change that did not apply is not submitted: whatever
    [SubmitPool] submits after [ApplyPoolIntoRepo] was in the pool before
    and applied. *)
Theorem apply_then_submit directory self w applied_any self1 w1 res self2 w2 :
  py_set_contract (set_iteration env) →
  ApplyPoolIntoRepo env directory (self, w) = (Ret applied_any, (self1, w1)) →
  SubmitPool env (self1, w1) = (res, (self2, w2)) →
  ∃ evs, trace w2 = trace w1 ++ evs
         ∧ ∀ c, c ∈ submit_attempts evs →
                c ∈ changes self ∧ apply_raises env c directory = false.
Proof.
  intros Hset Eapply Esubmit.
  destruct (SubmitPool_attempts _ _ _ _ _ Esubmit) as (evs & Htrace & Hevs).
  exists evs. split; [done|]. intros c Hc.
  eapply ApplyPoolIntoRepo_members; [done|exact Eapply|].
  apply Hevs in Hc. destruct (changes self1) as [|c' rest]; [done|].
  injection Hc as ->. left.
Qed.

(** X16.  The pool that [AcquirePool] returns carries its helper and its
    dry-run value into [HandleValidationFailure]: every filtered change gets
    one could-not-verify notification, in order, with the helper made at
    the acquisition and the dry-run flag joined with the process-wide
    one. *)
Theorem acquire_then_validation_failure branch internal buildroot d w w' :
  _IsTreeOpen env w = (Ret true, w') →
  ∃ pool w1 evs,
    AcquirePool env branch internal buildroot d w = (Ret pool, w1)
    ∧ HandleValidationFailure (pool, w1) = (Ret (), (pool, advance w1 evs 0))
    ∧ could_not_verify_notifications evs
      = (λ c, (c, Some (mkGerritHelper internal), d || GLOBAL_DRYRUN w))
        <$> projects_in_source_tree env (mkGerritHelper internal)
              (changes_ready env (mkGerritHelper internal) branch) buildroot.
Proof.
  intros Egate. eexists _, _, _.
  split; [by apply AcquirePool_open_run|].
  split; [apply HandleValidationFailure_run|].
  apply (could_not_verify_validation_trace
           (mkPool _ (Some (mkGerritHelper internal)) (d || GLOBAL_DRYRUN w))).
Qed.


End Phases.

(** ** The further properties at concrete pools *)

Lemma IsTreeOpen_answer_trace_witness :
  ∃ w',
    _IsTreeOpen
      (Examples.env_of
         (Examples.after_failures 2 (Examples.status "throttled")))
      Examples.fresh_world
    = (Ret true, w')
    ∧ requests w' = 3%nat
    ∧ trace w'
      = failed_attempts 2
        ++ [EvUrlopen status_url; EvWarn (HadToAttempt status_url 2)].
Proof.
  apply (IsTreeOpen_answer_trace
           (Examples.env_of
              (Examples.after_failures 2 (Examples.status "throttled")))
           Examples.fresh_world 2
           {[ "general_state"%string := JStr "throttled" ]}
           (JStr "throttled")).
  - lia.
  - intros [|[|i]] Hi; (reflexivity || lia).
  - reflexivity.
  - apply lookup_singleton_eq.
Defined.

Lemma IsTreeOpen_answer_without_state_witness :
  ∃ w',
    _IsTreeOpen
      (Examples.env_of
         (Examples.after_failures 1 (Response 200 (Loaded (JObj ∅)))))
      Examples.fresh_world
    = (Raise KeyError, w')
    ∧ requests w' = 2%nat.
Proof.
  apply (IsTreeOpen_answer_without_state
           (Examples.env_of
              (Examples.after_failures 1 (Response 200 (Loaded (JObj ∅)))))
           Examples.fresh_world 1 (JObj ∅)).
  - lia.
  - intros [|i] Hi; (reflexivity || lia).
  - reflexivity.
  - intros d [= <-]. apply lookup_empty.
Defined.

Lemma IsTreeOpen_other_error_propagates_witness :
  ∃ w',
    _IsTreeOpen Examples.undecodable_env Examples.fresh_world
    = (Raise ValueError, w')
    ∧ requests w' = 5%nat
    ∧ trace w' = failed_attempts 4 ++ [EvUrlopen status_url].
Proof.
  apply (IsTreeOpen_other_error_propagates Examples.undecodable_env
           Examples.fresh_world 4 ValueError).
  - lia.
  - intros [|[|[|[|i]]]] Hi; (reflexivity || lia).
  - discriminate.
  - right. reflexivity.
Defined.

Lemma IsTreeOpen_exhausted_sleeps_witness :
  ∃ w' evs,
    _IsTreeOpen Examples.unreachable_env Examples.fresh_world = (Ret true, w')
    ∧ trace w' = evs
    ∧ evs = failed_attempts 5 ++ [EvWarn (CouldNotGetStatus status_url)]
    ∧ request_count evs = 5%nat
    ∧ sleeps evs = [1; 2; 4; 8; 16]
    ∧ foldr Z.add 0 (sleeps evs) = 31.
Proof.
  apply (IsTreeOpen_exhausted_sleeps Examples.unreachable_env
           Examples.fresh_world).
  intros i _. reflexivity.
Defined.

Lemma AcquirePool_tree_open_witness :
  ∃ pool w1 h raw,
    AcquirePool Examples.tree_open_env "master" true "/b" false
      Examples.fresh_world
    = (Ret pool, w1)
    ∧ h = mkGerritHelper true
    ∧ raw = [Examples.change_a; Examples.change_b; Examples.change_c]
    ∧ trace w1
      = [EvUrlopen status_url]
        ++ [EvGerritHelper true;
            EvGrabChangesReadyForCommit h "master";
            EvFilterProjectsNotInSourceTree h raw "/b"]
    ∧ changes pool = raw
    ∧ gerrit_helper pool = Some h
    ∧ dryrun pool = false.
Proof.
  apply (AcquirePool_tree_open Examples.tree_open_env "master" true "/b" false
           Examples.fresh_world (mkWorld [EvUrlopen status_url] 1 false)).
  vm_compute. reflexivity.
Defined.

Lemma tree_gate_error_propagates_witness :
  AcquirePool Examples.undecodable_env "master" false "/b" false
    Examples.fresh_world
  = (Raise ValueError, mkWorld (backoff 1 4 ++ [EvUrlopen status_url]) 5 false)
  ∧ SubmitPool Examples.undecodable_env
      (Examples.pool_of [Examples.change_a], Examples.fresh_world)
    = (Raise ValueError,
       (Examples.pool_of [Examples.change_a],
        mkWorld (backoff 1 4 ++ [EvUrlopen status_url]) 5 false))
  ∧ (∃ evs, backoff 1 4 ++ [EvUrlopen status_url] = [] ++ evs
            ∧ Forall (λ e, is_change_source_call e = false) evs
            ∧ submit_attempts evs = []).
Proof.
  apply (tree_gate_error_propagates Examples.undecodable_env "master" false
           "/b" false (Examples.pool_of [Examples.change_a])
           Examples.fresh_world
           (mkWorld (backoff 1 4 ++ [EvUrlopen status_url]) 5 false)
           ValueError).
  vm_compute. reflexivity.
Defined.

Lemma SubmitPool_submit_failure_handled_witness :
  ∃ evs,
    SubmitPool
      (Examples.env_with (λ _, Examples.status "open") (λ _, false) (λ _, true))
      (Examples.pool_of [Examples.change_a; Examples.change_b],
       Examples.fresh_world)
    = (Ret (Some true),
       (Examples.pool_of [Examples.change_a; Examples.change_b],
        advance (mkWorld [EvUrlopen status_url] 1 false) evs 0))
    ∧ submit_calls evs = [(Examples.change_a, None, false)]
    ∧ could_not_submit_calls evs = [Examples.change_a]
    ∧ Forall (λ e, is_gate_event e = false) evs.
Proof.
  apply (SubmitPool_submit_failure_handled
           (Examples.env_with (λ _, Examples.status "open") (λ _, false)
              (λ _, true))
           (Examples.pool_of [Examples.change_a; Examples.change_b])
           Examples.fresh_world (mkWorld [EvUrlopen status_url] 1 false)
           Examples.change_a [Examples.change_b]).
  - vm_compute. reflexivity.
  - reflexivity.
Defined.

(** A pool in which a change is twice, and every change applies. *)
Lemma ApplyPoolIntoRepo_all_apply_witness :
  ApplyPoolIntoRepo Examples.tree_open_env "/b"
    (Examples.pool_of [Examples.change_a; Examples.change_c; Examples.change_a],
     Examples.fresh_world)
  = (Ret true,
     (Examples.pool_of
        [Examples.change_a; Examples.change_c; Examples.change_a],
      advance Examples.fresh_world
        ([Examples.change_a; Examples.change_c; Examples.change_a]
         ≫= λ c, [EvApply c "/b" true; EvPrintLink c]) 0)).
Proof.
  apply (ApplyPoolIntoRepo_all_apply Examples.tree_open_env "/b"
           (Examples.pool_of
              [Examples.change_a; Examples.change_c; Examples.change_a])
           Examples.fresh_world).
  apply Forall_forall. repeat constructor.
Defined.


Lemma ApplyPoolIntoRepo_all_fail_witness :
  ∃ self' evs,
    ApplyPoolIntoRepo
      (Examples.env_with (λ _, Examples.status "open") (λ _, true) (λ _, false))
      "/b"
      (Examples.pool_of [Examples.change_a; Examples.change_b],
       Examples.fresh_world)
    = (Ret false, (self', advance Examples.fresh_world evs 0))
    ∧ changes self' = []
    ∧ could_not_apply_calls evs = [Examples.change_a; Examples.change_b].
Proof.
  apply (ApplyPoolIntoRepo_all_fail
           (Examples.env_with (λ _, Examples.status "open") (λ _, true)
              (λ _, false))
           "/b" (Examples.pool_of [Examples.change_a; Examples.change_b])
           Examples.fresh_world).
  - apply iteration_by_slot_contract.
  - discriminate.
  - intros c _. reflexivity.
Defined.

(** The first change of the pool does not apply; the one submitted is
    another. *)
Lemma apply_then_submit_witness :
  ∃ self1 w1 self2 w2,
    ApplyPoolIntoRepo Examples.tree_open_env "/b"
      (Examples.pool_of
         [Examples.change_b; Examples.change_a; Examples.change_c],
       Examples.fresh_world)
    = (Ret true, (self1, w1))
    ∧ SubmitPool Examples.tree_open_env (self1, w1)
      = (Ret (Some true), (self2, w2))
    ∧ ∃ evs, trace w2 = trace w1 ++ evs
             ∧ ∀ c, c ∈ submit_attempts evs →
                    c ∈ [Examples.change_b; Examples.change_a;
                         Examples.change_c]
                    ∧ bool_decide (c = Examples.change_b) = false.
Proof.
  eexists _, _, _, _.
  split; [vm_compute; reflexivity|].
  split; [vm_compute; reflexivity|].
  eapply (apply_then_submit Examples.tree_open_env "/b"
            (Examples.pool_of
               [Examples.change_b; Examples.change_a; Examples.change_c])
            Examples.fresh_world).
  - apply iteration_by_slot_contract.
  - vm_compute. reflexivity.
  - vm_compute. reflexivity.
Defined.

Lemma acquire_then_validation_failure_witness :
  ∃ pool w1 evs,
    AcquirePool Examples.tree_open_env "master" true "/b" true
      Examples.fresh_world
    = (Ret pool, w1)
    ∧ HandleValidationFailure (pool, w1) = (Ret (), (pool, advance w1 evs 0))
    ∧ could_not_verify_notifications evs
      = [(Examples.change_a, Some (mkGerritHelper true), true);
         (Examples.change_b, Some (mkGerritHelper true), true);
         (Examples.change_c, Some (mkGerritHelper true), true)].
Proof.
  apply (acquire_then_validation_failure Examples.tree_open_env "master" true
           "/b" true Examples.fresh_world
           (mkWorld [EvUrlopen status_url] 1 false)).
  vm_compute. reflexivity.
Defined.

(** Two attempts fail and the third is answered: two sleeps, of one and of
    two seconds, and three requests. *)
Lemma IsTreeOpen_attempts_and_backoff_witness :
  ∃ r w' evs,
    _IsTreeOpen
      (Examples.env_of
         (Examples.after_failures 2 (Examples.status "throttled")))
      Examples.fresh_world
    = (r, w')
    ∧ trace w' = trace Examples.fresh_world ++ evs
    ∧ request_count evs = 3%nat
    ∧ sleeps evs = [1; 2].
Proof.
  destruct (IsTreeOpen_attempts_and_backoff
              (Examples.env_of
                 (Examples.after_failures 2 (Examples.status "throttled")))
              Examples.fresh_world)
    as (r & w' & evs & k & final & warnings & E & Htrace & Hk & Hfail & Hstop
        & Hfinal & Hevs & Hwarnings & Hcount & _ & _ & _ & Hsleeps).
  assert (k = 2%nat) as ->.
  { destruct k as [|[|[|k]]].
    - specialize (Hstop ltac:(lia)). discriminate Hstop.
    - specialize (Hstop ltac:(lia)). discriminate Hstop.
    - reflexivity.
    - specialize (Hfail 2%nat ltac:(lia)). discriminate Hfail. }
  exists r, w', evs. split; [exact E|]. split; [exact Htrace|].
  rewrite Hcount, Hsleeps, Hfinal. split; reflexivity.
Defined.
